(** * Tiled encode / decode of [AutoencoderKLWrapper]

    A shallow embedding of [ltx_video/models/autoencoders/vae.py]: the tiling
    configuration of the wrapper, the three blend operators, the spatial and
    the temporal tiling controllers, and the dispatch performed by [encode]
    and [decode].

    Conventions.
    - Python integers are [Z]; Python floats that only carry tile geometry
      (overlap factors, products with them) are exact rationals [Q], and
      [int(...)] is truncation towards zero.  The rational products agree
      with the float products of the source where these are exact: for the
      overlap factors 0 and 0.25 and sizes below [2 ^ 50], and for the
      quotient [sample_size / 32] below [2 ^ 53].  A statement that depends
      on the value of a stride or of an extent elsewhere says so in its
      hypotheses.
    - A 5-D tensor is a shape together with an element function.  The
      element type and its arithmetic are abstract ([elem_ops]), so every
      statement holds for whatever arithmetic the tensors use.
    - The encoder, the decoder, the 1x1 convolutions and the construction of
      the posterior are opaque ([codec]).
      Each call to them, and each entry into one of the four internal
      transform methods, is appended to a call trace.
    - An exception is a value [inl e] of [result]. *)

From Stdlib Require Import ZArith QArith Lia Lqa Bool.
From stdpp Require Import base list.

Local Open Scope Z_scope.

(** ** Python helpers *)

Inductive exn :=
| AssertionError
| NotImplementedError
| ValueError
| IndexError
| RuntimeError
| TypeError.

Definition result (A : Type) : Type := (exn + A)%type.

Definition rbind {A B} (r : result A) (k : A -> result B) : result B :=
  match r with
  | inl e => inl e
  | inr a => k a
  end.

Fixpoint rmapM {A B} (f : A -> result B) (l : list A) : result (list B) :=
  match l with
  | [] => inr []
  | x :: l' => rbind (f x) (fun y => rbind (rmapM f l') (fun ys => inr (y :: ys)))
  end.

Fixpoint rfoldM {A S} (f : S -> A -> result S) (l : list A) (s : S) : result S :=
  match l with
  | [] => inr s
  | x :: l' => rbind (f s x) (rfoldM f l')
  end.

(** [int(q)]: truncation towards zero. *)
Definition py_int (q : Q) : Z := Z.quot (Qnum q) (Zpos (Qden q)).

(** [range(stop)]. *)
Definition py_range1 (stop : Z) : list Z :=
  map Z.of_nat (seq 0 (Z.to_nat stop)).

(** [range(0, stop, step)]; a zero step raises [ValueError]. *)
Definition py_range_len (stop step : Z) : Z :=
  if 0 <? step then (if 0 <? stop then (stop - 1) / step + 1 else 0)
  else (if stop <? 0 then (- stop - 1) / (- step) + 1 else 0).

Definition py_range (stop step : Z) : result (list Z) :=
  if step =? 0 then inl ValueError
  else inr (map (fun k => Z.of_nat k * step) (seq 0 (Z.to_nat (py_range_len stop step)))).

(** [min(x, y, z)]. *)
Definition py_min3 (x y z : Z) : Z := Z.min (Z.min x y) z.

(** Normalisation of one bound of a slice [lo:hi] over an axis of length [n]:
    a negative bound counts from the end, and both are clamped to [0, n]. *)
Definition slice_bound (n : Z) (dflt : Z) (v : option Z) : Z :=
  match v with
  | None => dflt
  | Some v => if v <? 0 then Z.max 0 (v + n) else Z.min v n
  end.

(** A single index [k] into an axis of length [n]. *)
Definition py_index (n k : Z) : result Z :=
  if k <? 0 then (if k + n <? 0 then inl IndexError else inr (k + n))
  else (if k <? n then inr k else inl IndexError).

(** ** Tensors *)

Inductive axis := Ax0 | Ax1 | Ax2 | Ax3 | Ax4.

Record idx := Idx { i0 : Z; i1 : Z; i2 : Z; i3 : Z; i4 : Z }.

Definition get (ax : axis) (i : idx) : Z :=
  match ax with
  | Ax0 => i0 i | Ax1 => i1 i | Ax2 => i2 i | Ax3 => i3 i | Ax4 => i4 i
  end.

Definition set (ax : axis) (v : Z) (i : idx) : idx :=
  match ax with
  | Ax0 => Idx v (i1 i) (i2 i) (i3 i) (i4 i)
  | Ax1 => Idx (i0 i) v (i2 i) (i3 i) (i4 i)
  | Ax2 => Idx (i0 i) (i1 i) v (i3 i) (i4 i)
  | Ax3 => Idx (i0 i) (i1 i) (i2 i) v (i4 i)
  | Ax4 => Idx (i0 i) (i1 i) (i2 i) (i3 i) v
  end.

Definition axis_eqb (a b : axis) : bool :=
  match a, b with
  | Ax0, Ax0 | Ax1, Ax1 | Ax2, Ax2 | Ax3, Ax3 | Ax4, Ax4 => true
  | _, _ => false
  end.

Definition all_axes : list axis := [Ax0; Ax1; Ax2; Ax3; Ax4].

(** The axes other than [ax]. *)
Definition other_axes (ax : axis) : list axis :=
  filter (fun a => axis_eqb a ax = false) all_axes.

(** [i] addresses an element of a tensor of shape [sh]. *)
Definition in_range (sh i : idx) : Prop :=
  forall a, 0 <= get a i < get a sh.

Record tensor (elem : Type) := Tensor { shape : idx; data : idx -> elem }.
Arguments Tensor {elem} _ _.
Arguments shape {elem} _.
Arguments data {elem} _ _.

(** [t.shape[ax]]. *)
Definition dim {elem} (ax : axis) (t : tensor elem) : Z := get ax (shape t).

(** [t[..., lo:hi, ...]] along [ax]. *)
Definition tslice {elem} (ax : axis) (lo hi : option Z) (t : tensor elem) : tensor elem :=
  let n := dim ax t in
  let l := slice_bound n 0 lo in
  let h := slice_bound n n hi in
  Tensor (set ax (Z.max 0 (h - l)) (shape t))
         (fun i => data t (set ax (get ax i + l) i)).

(** The arithmetic of tensor elements and of Python scalars. *)
Record elem_ops (elem scalar : Type) := ElemOps {
  int_div : Z -> Z -> scalar;         (* [z / m] on Python ints *)
  one_minus : scalar -> scalar;       (* [1 - s] *)
  scale : elem -> scalar -> elem;     (* [tensor * s], elementwise *)
  add : elem -> elem -> elem;         (* [tensor + tensor], elementwise *)
  to_float16 : elem -> elem           (* [.to(torch.float16)], elementwise *)
}.
Arguments int_div {elem scalar} _ _ _.
Arguments one_minus {elem scalar} _ _.
Arguments scale {elem scalar} _ _ _.
Arguments add {elem scalar} _ _ _.
Arguments to_float16 {elem scalar} _ _.

(** ** The wrapper's configuration state *)

(** The class of [self.latent_norm_out]. *)
Inductive norm_layer := Identity | BatchNorm2d | BatchNorm3d.

Record vae := Vae {
  latent_norm_out : norm_layer;
  use_z_tiling : bool;
  use_hw_tiling : bool;
  dims : Z;
  z_sample_size : Z;
  tile_sample_min_size : Z;
  tile_latent_min_size : Z;
  tile_overlap_factor : Q
}.

Definition set_tiling_params (self : vae) (sample_size : Z) (overlap_factor : Q) : vae :=
  Vae (latent_norm_out self) (use_z_tiling self) (use_hw_tiling self) (dims self)
      (z_sample_size self)
      sample_size
      (py_int (inject_Z sample_size / 32))
      overlap_factor.

(** [__init__], restricted to the attributes the tiling logic reads. *)
Definition init (dims : Z) (sample_size : Z) (normalize_latent_channels : bool) : vae :=
  set_tiling_params
    (Vae (if normalize_latent_channels
          then (if dims =? 2 then BatchNorm2d else BatchNorm3d)
          else Identity)
         false false dims 1 0 0 0)
    sample_size (1 # 4).

(** [enable_z_tiling]: both attributes are assigned, then the assertion is
    evaluated.  The returned state is the state after the call, whether or
    not the assertion failed. *)
Definition enable_z_tiling (self : vae) (z_sample_size : Z) : vae * result unit :=
  let self := Vae (latent_norm_out self) (z_sample_size >? 1) (use_hw_tiling self)
                  (dims self) z_sample_size (tile_sample_min_size self)
                  (tile_latent_min_size self) (tile_overlap_factor self) in
  (self,
   if (z_sample_size mod 4 =? 0) || (z_sample_size =? 1)
   then inr tt else inl AssertionError).

Definition disable_z_tiling (self : vae) : vae :=
  Vae (latent_norm_out self) false (use_hw_tiling self) (dims self)
      (z_sample_size self) (tile_sample_min_size self)
      (tile_latent_min_size self) (tile_overlap_factor self).

Definition enable_hw_tiling (self : vae) : vae :=
  Vae (latent_norm_out self) (use_z_tiling self) true (dims self)
      (z_sample_size self) (tile_sample_min_size self)
      (tile_latent_min_size self) (tile_overlap_factor self).

Definition disable_hw_tiling (self : vae) : vae :=
  Vae (latent_norm_out self) (use_z_tiling self) false (dims self)
      (z_sample_size self) (tile_sample_min_size self)
      (tile_latent_min_size self) (tile_overlap_factor self).

(** The states the wrapper can reach through its constructor and its
    configuration methods. *)
Inductive reachable : vae -> Prop :=
| reach_init d s n : reachable (init d s n)
| reach_set_tiling_params st s f :
    reachable st -> reachable (set_tiling_params st s f)
| reach_enable_z st z : reachable st -> reachable (fst (enable_z_tiling st z))
| reach_disable_z st : reachable st -> reachable (disable_z_tiling st)
| reach_enable_hw st : reachable st -> reachable (enable_hw_tiling st)
| reach_disable_hw st : reachable st -> reachable (disable_hw_tiling st).

Definition isinstance_BatchNorm3d (n : norm_layer) : bool :=
  match n with BatchNorm3d => true | _ => false end.

Definition isinstance_BatchNorm2d (n : norm_layer) : bool :=
  match n with BatchNorm2d => true | _ => false end.

(** A keyword argument that a call may leave out. *)
Inductive kwarg (A : Type) := Omitted | Passed (a : A).
Arguments Omitted {A}.
Arguments Passed {A} _.

(** The opaque collaborators. *)
Record codec (elem : Type) := Codec {
  encoder : tensor elem -> result (tensor elem);
  quant_conv : tensor elem -> result (tensor elem);
  post_quant_conv : tensor elem -> result (tensor elem);
  decoder : tensor elem -> list Z -> kwarg (option (tensor elem)) -> result (tensor elem);
  (* ["timestep" in self.decoder_params] *)
  decoder_takes_timestep : bool;
  (* [self.latent_norm_out(x)] for a [BatchNorm3d] *)
  batch_norm3d : tensor elem -> result (tensor elem);
  (* [z * sqrt(running_var + eps) + running_mean] *)
  batch_norm3d_inverse : tensor elem -> tensor elem;
  (* [DiagonalGaussianDistribution(moments)] of diffusers: whether the
     posterior can be built from the moments, or the exception it raises *)
  diagonal_gaussian : tensor elem -> result unit
}.
Arguments encoder {elem} _ _.
Arguments quant_conv {elem} _ _.
Arguments post_quant_conv {elem} _ _.
Arguments decoder {elem} _ _ _ _.
Arguments decoder_takes_timestep {elem} _.
Arguments batch_norm3d {elem} _ _.
Arguments batch_norm3d_inverse {elem} _ _.
Arguments diagonal_gaussian {elem} _ _.

(** Calls recorded in the trace. *)
Inductive event (elem : Type) :=
| EvEncoder (x : tensor elem)
| EvQuantConv (x : tensor elem)
| EvPostQuantConv (x : tensor elem)
| EvDecoder (x : tensor elem) (target_shape : list Z)
            (timestep : kwarg (option (tensor elem)))
| EvLatentNorm (x : tensor elem)
| Ev_hw_tiled_encode (x : tensor elem)
| Ev_encode (x : tensor elem)
| Ev_hw_tiled_decode (z : tensor elem) (target_shape : list Z)
                     (timestep : option (tensor elem))
| Ev_decode (z : tensor elem) (target_shape : list Z)
            (timestep : option (tensor elem)).
Arguments EvEncoder {elem} _.
Arguments EvQuantConv {elem} _.
Arguments EvPostQuantConv {elem} _.
Arguments EvDecoder {elem} _ _ _.
Arguments EvLatentNorm {elem} _.
Arguments Ev_hw_tiled_encode {elem} _.
Arguments Ev_encode {elem} _.
Arguments Ev_hw_tiled_decode {elem} _ _ _.
Arguments Ev_decode {elem} _ _ _.

(** What [encode] and [decode] return.  The posterior, once built from the
    moments, is represented by the moments. *)
Inductive encode_output (elem : Type) :=
| PosteriorTuple (moments : tensor elem)        (* [(posterior,)] *)
| AutoencoderKLOutput (moments : tensor elem).  (* [latent_dist=posterior] *)
Arguments PosteriorTuple {elem} _.
Arguments AutoencoderKLOutput {elem} _.

Inductive decode_output (elem : Type) :=
| SampleTuple (dec : tensor elem)               (* [(dec,)] *)
| DecoderOutput (dec : tensor elem).            (* [sample=dec] *)
Arguments SampleTuple {elem} _.
Arguments DecoderOutput {elem} _.

(** ** The call-trace monad *)

Module Trace.

Definition M (E A : Type) : Type := list E -> result A * list E.

Definition ret {E A} (a : A) : M E A := fun tr => (inr a, tr).

Definition bind {E A B} (c : M E A) (k : A -> M E B) : M E B :=
  fun tr =>
    match c tr with
    | (inl e, tr') => (inl e, tr')
    | (inr a, tr') => k a tr'
    end.

Definition raise {E A} (e : exn) : M E A := fun tr => (inl e, tr).

Definition lift {E A} (r : result A) : M E A := fun tr => (r, tr).

Definition emit {E} (ev : E) : M E unit := fun tr => (inr tt, tr ++ [ev]).

Fixpoint mapM {E A B} (f : A -> M E B) (l : list A) : M E (list B) :=
  match l with
  | [] => ret []
  | x :: l' => bind (f x) (fun y => bind (mapM f l') (fun ys => ret (y :: ys)))
  end.

End Trace.

Import Trace.

Notation "'let*' x ':=' c 'in' k" := (bind c (fun x => k))
  (at level 10, x pattern, c at level 100, k at level 200,
   format "'[v' 'let*'  x  ':='  c  'in' '/' k ']'").
Notation "'let+' x ':=' c 'in' k" := (rbind c (fun x => k))
  (at level 10, x pattern, c at level 100, k at level 200,
   format "'[v' 'let+'  x  ':='  c  'in' '/' k ']'").

(** ** The model of the class *)

Section Model.

Context {elem scalar : Type}.
Variable ops : elem_ops elem scalar.
Variable net : codec elem.

Abbreviation tensor := (tensor elem).
Abbreviation event := (event elem).
Abbreviation M := (Trace.M event).

(** [t.to(torch.float16).cpu()]; the device is not modelled. *)
Definition to_float16_cpu (t : tensor) : tensor :=
  Tensor (shape t) (fun i => to_float16 ops (data t i)).

(** *** [torch.cat] *)

Definition same_other_dims (ax : axis) (s1 s2 : idx) : bool :=
  forallb (fun a => axis_eqb a ax || (get a s1 =? get a s2)) all_axes.

Fixpoint cat_data (ax : axis) (t : tensor) (ts : list tensor) (i : idx) : elem :=
  match ts with
  | [] => data t i
  | t' :: ts' =>
      if get ax i <? dim ax t then data t i
      else cat_data ax t' ts' (set ax (get ax i - dim ax t) i)
  end.

Definition sum_dims (ax : axis) (ts : list tensor) : Z :=
  foldr (fun t acc => dim ax t + acc) 0 ts.

(** [torch.cat(ts, dim=ax)]: an empty list and tensors that disagree on
    another axis raise. *)
Definition cat (ax : axis) (ts : list tensor) : result tensor :=
  match ts with
  | [] => inl RuntimeError
  | t :: ts' =>
      if forallb (fun t' => same_other_dims ax (shape t) (shape t')) ts'
      then inr (Tensor (set ax (sum_dims ax ts) (shape t)) (cat_data ax t ts'))
      else inl RuntimeError
  end.

(** *** The blend operators

    [blend_z], [blend_v] and [blend_h] have the same body up to the axis
    (2, 3 and 4); [blend] is that body.  [a] and [b] are distinct tensors in
    every caller, so updating [b] in place is a new value for [b]. *)

(** Broadcasting of the slice of [a] against the slice of [b]: on every other
    axis the extents agree or [a]'s is 1. *)
Definition bcast_ok (ax : axis) (sa sb : idx) : bool :=
  forallb (fun x => axis_eqb x ax || (get x sa =? get x sb) || (get x sa =? 1))
          all_axes.

Definition bcast1 (sa : idx) (x : axis) (i : idx) : idx :=
  if get x sa =? 1 then set x 0 i else i.

Definition bcast_idx (ax : axis) (sa : idx) (i : idx) : idx :=
  foldr (bcast1 sa) i (other_axes ax).

(** One iteration of the loop: [b[.., z, ..] = a[.., -m + z, ..] * (1 - z / m)
    + b[.., z, ..] * (z / m)], where [m] is the clamped extent. *)
Definition blend_step (ax : axis) (a : tensor) (m : Z) (b : tensor) (z : Z)
  : result tensor :=
  let+ k := py_index (dim ax a) (- m + z) in
  let+ _ := py_index (dim ax b) z in
  if bcast_ok ax (shape a) (shape b)
  then inr (Tensor (shape b)
              (fun i =>
                 if get ax i =? z
                 then add ops
                        (scale ops (data a (set ax k (bcast_idx ax (shape a) i)))
                               (one_minus ops (int_div ops z m)))
                        (scale ops (data b i) (int_div ops z m))
                 else data b i))
  else inl RuntimeError.

Definition blend (ax : axis) (a b : tensor) (blend_extent : Z) : result tensor :=
  let blend_extent := py_min3 (dim ax a) (dim ax b) blend_extent in
  rfoldM (blend_step ax a blend_extent) (py_range1 blend_extent) b.

Definition blend_z := blend Ax2.
Definition blend_v := blend Ax3.
Definition blend_h := blend Ax4.

(** *** Calls to the opaque collaborators *)

Definition call_encoder (x : tensor) : M tensor :=
  let* _ := emit (EvEncoder x) in lift (encoder net x).

Definition call_quant_conv (x : tensor) : M tensor :=
  let* _ := emit (EvQuantConv x) in lift (quant_conv net x).

Definition call_post_quant_conv (x : tensor) : M tensor :=
  let* _ := emit (EvPostQuantConv x) in lift (post_quant_conv net x).

Definition call_decoder (x : tensor) (target_shape : list Z)
    (timestep : kwarg (option tensor)) : M tensor :=
  let* _ := emit (EvDecoder x target_shape timestep) in
  lift (decoder net x target_shape timestep).

Definition call_latent_norm (x : tensor) : M tensor :=
  let* _ := emit (EvLatentNorm x) in lift (batch_norm3d net x).

(** *** Latent-channel normalisation *)

Definition _normalize_latent_channels (self : vae) (z : tensor) : M tensor :=
  if isinstance_BatchNorm3d (latent_norm_out self) then
    let c := dim Ax1 z in
    let* n := call_latent_norm (tslice Ax1 None (Some (c / 2)) z) in
    lift (cat Ax1 [n; tslice Ax1 (Some (c / 2)) None z])
  else if isinstance_BatchNorm2d (latent_norm_out self) then
    raise NotImplementedError
  else ret z.

(** The second test repeats the first one, as in the source. *)
Definition _unnormalize_latent_channels (self : vae) (z : tensor) : M tensor :=
  if isinstance_BatchNorm3d (latent_norm_out self) then
    ret (batch_norm3d_inverse net z)
  else if isinstance_BatchNorm3d (latent_norm_out self) then
    raise NotImplementedError
  else ret z.

(** *** The transform adapter *)

Definition _encode (self : vae) (x : tensor) : M tensor :=
  let* _ := emit (Ev_encode x) in
  let* h := call_encoder x in
  let* moments := call_quant_conv h in
  _normalize_latent_channels self moments.

Definition _decode (self : vae) (z : tensor) (target_shape : list Z)
    (timestep : option tensor) : M tensor :=
  let* _ := emit (Ev_decode z target_shape timestep) in
  let* z := _unnormalize_latent_channels self z in
  let* z := call_post_quant_conv z in
  if decoder_takes_timestep net
  then call_decoder z target_shape (Passed timestep)
  else call_decoder z target_shape Omitted.

(** *** The spatial tiling controller *)

(** [x[:, :, :, i : i + size, j : j + size]]. *)
Definition hw_tile (size i j : Z) (x : tensor) : tensor :=
  tslice Ax4 (Some j) (Some (j + size)) (tslice Ax3 (Some i) (Some (i + size)) x).

(** [tile[:, :, :, :row_limit, :row_limit]]. *)
Definition crop_hw (row_limit : Z) (tile : tensor) : tensor :=
  tslice Ax4 None (Some row_limit) (tslice Ax3 None (Some row_limit) tile).

(** [rows[i][j]]. *)
Definition grid_get (rows : list (list tensor)) (i j : nat) : result tensor :=
  match rows !! i with
  | Some row => match row !! j with
                | Some t => inr t
                | None => inl IndexError
                end
  | None => inl IndexError
  end.

(** The tensor object held at [rows[i][j]] takes the value [t]. *)
Definition grid_set (rows : list (list tensor)) (i j : nat) (t : tensor)
  : list (list tensor) :=
  alter (fun row => <[j := t]> row) i rows.

(** The body of the inner composition loop.  The blend operators write into
    the tile object, which [rows] holds too: the grid is updated with it, and
    later tiles blend against the updated neighbours. *)
Definition blend_tile (blend_extent row_limit : Z) (i : nat)
    (st : list (list tensor) * list tensor) (j : nat)
  : result (list (list tensor) * list tensor) :=
  let '(rows, result_row) := st in
  let+ tile := grid_get rows i j in
  let+ tile :=
    (if (0 <? i)%nat
     then let+ above := grid_get rows (i - 1) j in
          blend_v above tile blend_extent
     else inr tile) in
  let rows := grid_set rows i j tile in
  let+ tile :=
    (if (0 <? j)%nat
     then let+ beside := grid_get rows i (j - 1) in
          blend_h beside tile blend_extent
     else inr tile) in
  let rows := grid_set rows i j tile in
  inr (rows, result_row ++ [crop_hw row_limit tile]).

(** The body of the outer composition loop. *)
Definition blend_row (blend_extent row_limit : Z)
    (st : list (list tensor) * list tensor) (i : nat)
  : result (list (list tensor) * list tensor) :=
  let '(rows, result_rows) := st in
  let n := match rows !! i with Some row => length row | None => O end in
  let+ (rows, result_row) :=
    rfoldM (blend_tile blend_extent row_limit i) (seq 0 n) (rows, []) in
  let+ r := cat Ax4 result_row in
  inr (rows, result_rows ++ [r]).

(** The two composition loops, shared by [_hw_tiled_encode] and
    [_hw_tiled_decode], followed by [torch.cat(result_rows, dim=3)]. *)
Definition blend_rows (blend_extent row_limit : Z) (rows : list (list tensor))
  : result tensor :=
  let+ (_, result_rows) :=
    rfoldM (blend_row blend_extent row_limit) (seq 0 (length rows)) (rows, []) in
  cat Ax3 result_rows.

(** The extraction loops: a grid of transformed tiles. *)
Definition tile_grid (x : tensor) (overlap_size : Z) (f : Z -> Z -> M tensor)
  : M (list (list tensor)) :=
  let* origins := lift (py_range (dim Ax3 x) overlap_size) in
  mapM (fun i =>
          let* js := lift (py_range (dim Ax4 x) overlap_size) in
          mapM (fun j => f i j) js) origins.

Definition hw_encode_tile (self : vae) (x : tensor) (i j : Z) : M tensor :=
  let tile := hw_tile (tile_sample_min_size self) i j x in
  let* tile := call_encoder tile in
  call_quant_conv tile.

Definition _hw_tiled_encode (self : vae) (x : tensor) (return_dict : bool) : M tensor :=
  let* _ := emit (Ev_hw_tiled_encode x) in
  let overlap_size :=
    py_int (inject_Z (tile_sample_min_size self) * (1 - tile_overlap_factor self)) in
  let blend_extent :=
    py_int (inject_Z (tile_latent_min_size self) * tile_overlap_factor self) in
  let row_limit := tile_latent_min_size self - blend_extent in
  let* rows := tile_grid x overlap_size (hw_encode_tile self x) in
  lift (blend_rows blend_extent row_limit rows).

Definition hw_decode_tile (self : vae) (z : tensor) (tile_target_shape : list Z)
    (timestep : option tensor) (i j : Z) : M tensor :=
  let tile := hw_tile (tile_latent_min_size self) i j z in
  let* tile := call_post_quant_conv tile in
  call_decoder tile tile_target_shape (Passed timestep).

Definition _hw_tiled_decode (self : vae) (z : tensor) (target_shape : list Z)
    (timestep : option tensor) : M tensor :=
  let* _ := emit (Ev_hw_tiled_decode z target_shape timestep) in
  let overlap_size :=
    py_int (inject_Z (tile_latent_min_size self) * (1 - tile_overlap_factor self)) in
  let blend_extent :=
    py_int (inject_Z (tile_sample_min_size self) * tile_overlap_factor self) in
  let row_limit := tile_sample_min_size self - blend_extent in
  let tile_target_shape :=
    take 3 target_shape ++ [tile_sample_min_size self; tile_sample_min_size self] in
  let* rows :=
    tile_grid z overlap_size (hw_decode_tile self z tile_target_shape timestep) in
  lift (blend_rows blend_extent row_limit rows).

(** *** The temporal tiling controller *)

(** The condition that selects the temporally tiled branch:
    [self.use_z_tiling and z.shape[2] > (self.z_sample_size + 1) > 1]. *)
Definition z_tiling_engaged (self : vae) (z : tensor) : bool :=
  use_z_tiling self
  && ((dim Ax2 z >? z_sample_size self + 1) && (z_sample_size self + 1 >? 1)).

(** The body of the composition loop over the segments; [row] is the list of
    segment objects, and the blend writes into [row[i]]. *)
Definition blend_segment (blend_extent t_limit : Z)
    (st : list tensor * list tensor) (i : nat)
  : result (list tensor * list tensor) :=
  let '(row, result_row) := st in
  match row !! i with
  | None => inl IndexError
  | Some tile =>
      if (0 <? i)%nat then
        match row !! (i - 1)%nat with
        | None => inl IndexError
        | Some prev =>
            let+ tile := blend_z prev tile blend_extent in
            inr (<[i := tile]> row,
                 result_row ++ [tslice Ax2 None (Some t_limit) tile])
        end
      else inr (row, result_row ++ [tslice Ax2 None (Some (t_limit + 1)) tile])
  end.

(** The composition loop followed by [torch.cat(result_row, dim=2)]. *)
Definition blend_segments (blend_extent t_limit : Z) (row : list tensor)
  : result tensor :=
  let+ (_, result_row) :=
    rfoldM (blend_segment blend_extent t_limit) (seq 0 (length row)) (row, []) in
  cat Ax2 result_row.

(** [tile[:, :, 1:, :, :]] for every segment but the one at origin 0. *)
Definition drop_leading_frame (i : Z) (tile : tensor) : tensor :=
  if i >? 0 then tslice Ax2 (Some 1) None tile else tile.

Definition encode_segment (self : vae) (z : tensor) (tile_sample_min_tsize : Z)
    (return_dict : bool) (i : Z) : M tensor :=
  let tile := tslice Ax2 (Some i) (Some (i + tile_sample_min_tsize + 1)) z in
  let* tile :=
    (if use_hw_tiling self
     then _hw_tiled_encode self tile return_dict
     else _encode self tile) in
  ret (drop_leading_frame i tile).

(** The temporally tiled branch of [encode]: the moments. *)
Definition encode_z_tiled (self : vae) (z : tensor) (return_dict : bool) : M tensor :=
  let tile_latent_min_tsize := z_sample_size self in
  let tile_sample_min_tsize := tile_latent_min_tsize * 8 in
  let tile_overlap_factor := (1 # 4)%Q in
  let T := dim Ax2 z in
  let overlap_size :=
    py_int (inject_Z tile_sample_min_tsize * (1 - tile_overlap_factor)) in
  let blend_extent :=
    py_int (inject_Z tile_latent_min_tsize * tile_overlap_factor) in
  let t_limit := tile_latent_min_tsize - blend_extent in
  let* origins := lift (py_range T overlap_size) in
  let* row := mapM (encode_segment self z tile_sample_min_tsize return_dict) origins in
  lift (blend_segments blend_extent t_limit row).

(** The other branch of [encode]. *)
Definition encode_untiled_z (self : vae) (z : tensor) (return_dict : bool) : M tensor :=
  if use_hw_tiling self && (dim Ax2 z >? 1)
  then _hw_tiled_encode self z return_dict
  else _encode self z.

Definition encode (self : vae) (z : tensor) (return_dict : bool)
  : M (encode_output elem) :=
  let* moments :=
    (if z_tiling_engaged self z
     then encode_z_tiled self z return_dict
     else encode_untiled_z self z return_dict) in
  let* _ := lift (diagonal_gaussian net moments) in
  if negb return_dict then ret (PosteriorTuple moments)
  else ret (AutoencoderKLOutput moments).

(** [target_shape_split = list(target_shape); target_shape_split[2] = v]. *)
Definition target_shape_split (target_shape : list Z) (v : Z) : result (list Z) :=
  if (2 <? length target_shape)%nat then inr (<[2%nat := v]> target_shape)
  else inl IndexError.

Definition decode_segment (self : vae) (z : tensor) (tile_latent_min_tsize : Z)
    (target_shape : list Z) (timestep : option tensor) (i : Z) : M tensor :=
  let tile := tslice Ax2 (Some i) (Some (i + tile_latent_min_tsize + 1)) z in
  let* target_shape_split := lift (target_shape_split target_shape (dim Ax2 tile * 8)) in
  let* decoded :=
    (if use_hw_tiling self
     then _hw_tiled_decode self tile target_shape timestep
     else _decode self tile target_shape timestep) in
  let decoded := drop_leading_frame i decoded in
  ret (to_float16_cpu decoded).

(** The temporally tiled branch of [decode]. *)
Definition decode_z_tiled (self : vae) (z : tensor) (target_shape : list Z)
    (timestep : option tensor) : M tensor :=
  let tile_latent_min_tsize := z_sample_size self in
  let tile_sample_min_tsize := tile_latent_min_tsize * 8 in
  let tile_overlap_factor := (1 # 4)%Q in
  let T := dim Ax2 z in
  let overlap_size :=
    py_int (inject_Z tile_latent_min_tsize * (1 - tile_overlap_factor)) in
  let blend_extent :=
    py_int (inject_Z tile_sample_min_tsize * tile_overlap_factor) in
  let t_limit := tile_sample_min_tsize - blend_extent in
  let* origins := lift (py_range T overlap_size) in
  let* row :=
    mapM (decode_segment self z tile_latent_min_tsize target_shape timestep) origins in
  lift (blend_segments blend_extent t_limit row).

(** The other branch of [decode]. *)
Definition decode_untiled_z (self : vae) (z : tensor) (target_shape : list Z)
    (timestep : option tensor) : M tensor :=
  if use_hw_tiling self
  then _hw_tiled_decode self z target_shape timestep
  else _decode self z target_shape timestep.

Definition decode (self : vae) (z : tensor) (return_dict : bool)
    (target_shape : option (list Z)) (timestep : option tensor)
  : M (decode_output elem) :=
  match target_shape with
  | None => raise AssertionError
  | Some target_shape =>
      let* dec :=
        (if z_tiling_engaged self z
         then decode_z_tiled self z target_shape timestep
         else decode_untiled_z self z target_shape timestep) in
      if negb return_dict then ret (SampleTuple dec)
      else ret (DecoderOutput dec)
  end.

End Model.

Arguments cat {elem} _ _.
Arguments blend {elem scalar} _ _ _ _ _.
Arguments blend_z {elem scalar} _ _ _ _.
Arguments blend_v {elem scalar} _ _ _ _.
Arguments blend_h {elem scalar} _ _ _ _.
Arguments blend_step {elem scalar} _ _ _ _ _ _.
Arguments blend_rows {elem scalar} _ _ _ _.
Arguments blend_segments {elem scalar} _ _ _ _.
Arguments tile_grid {elem} _ _ _.
Arguments hw_encode_tile {elem} _ _ _ _ _.
Arguments hw_decode_tile {elem} _ _ _ _ _ _ _.
Arguments z_tiling_engaged {elem} _ _.
Arguments drop_leading_frame {elem} _ _.
Arguments crop_hw {elem} _ _.

(** ** The properties the specification words, as definitions *)

Section Spec.

Context {elem scalar : Type}.
Variable ops : elem_ops elem scalar.
Variable net : codec elem.

(** The value the cross-fade writes at position [k] of the blended axis for an
    extent [extent]: [a[extent(a) - extent + k] * (1 - k / extent)
    + b[k] * (k / extent)], read at the element [i] of the slice. *)
Definition crossfade (ax : axis) (a b : tensor elem) (extent k : Z) (i : idx) : elem :=
  add ops
      (scale ops (data a (set ax (dim ax a - extent + k) i))
             (one_minus ops (int_div ops k extent)))
      (scale ops (data b i) (int_div ops k extent)).

(** A grid composed without any cross-fade: every tile cropped, the tiles of
    a row concatenated along the width, the rows along the height. *)
Definition concat_cropped (row_limit : Z) (rows : list (list (tensor elem)))
  : result (tensor elem) :=
  let+ result_rows :=
    rmapM (fun row => cat Ax4 (map (crop_hw row_limit) row)) rows in
  cat Ax3 result_rows.

(** The origins [0, stride, 2 * stride, ...] below [T]. *)
Definition origins (T stride : Z) : list Z :=
  map (fun k => Z.of_nat k * stride) (seq 0 (Z.to_nat ((T + stride - 1) / stride))).

(** Segments after the first: each is blended against its predecessor (as the
    predecessor stands after its own blend) and cropped to [t_limit] frames. *)
Fixpoint compose_rest (blend_extent t_limit : Z) (prev : tensor elem)
    (segs : list (tensor elem)) : result (list (tensor elem)) :=
  match segs with
  | [] => inr []
  | s :: rest =>
      let+ s' := blend_z ops prev s blend_extent in
      let+ out := compose_rest blend_extent t_limit s' rest in
      inr (tslice Ax2 None (Some t_limit) s' :: out)
  end.

(** The first segment cropped to [t_limit + 1] frames, the others composed
    as above, everything concatenated along time in order. *)
Definition compose_temporal (blend_extent t_limit : Z) (segs : list (tensor elem))
  : result (tensor elem) :=
  match segs with
  | [] => inl RuntimeError
  | s0 :: rest =>
      let+ out := compose_rest blend_extent t_limit s0 rest in
      cat Ax2 (tslice Ax2 None (Some (t_limit + 1)) s0 :: out)
  end.

(** The per-segment transform of the temporally tiled encode: the window is
    handed to the spatial controller or to the transform adapter. *)
Definition encode_window (self : vae) (return_dict : bool) (w : tensor elem)
  : Trace.M (event elem) (tensor elem) :=
  if use_hw_tiling self then _hw_tiled_encode ops net self w return_dict
  else _encode net self w.

End Spec.

(** ** Observing a call trace *)

Inductive method := M_hw_tiled_encode | M_encode | M_hw_tiled_decode | M_decode.

(** The internal transform methods entered, in order. *)
Definition entered {elem} (tr : list (event elem)) : list method :=
  omap (fun ev =>
          match ev with
          | Ev_hw_tiled_encode _ => Some M_hw_tiled_encode
          | Ev_encode _ => Some M_encode
          | Ev_hw_tiled_decode _ _ _ => Some M_hw_tiled_decode
          | Ev_decode _ _ _ => Some M_decode
          | _ => None
          end) tr.

(** For every entry into [_hw_tiled_decode] or [_decode]: the time length of
    the volume handed over and the target shape handed over. *)
Definition decode_calls {elem} (tr : list (event elem)) : list (Z * list Z) :=
  omap (fun ev =>
          match ev with
          | Ev_hw_tiled_decode z ts _ => Some (dim Ax2 z, ts)
          | Ev_decode z ts _ => Some (dim Ax2 z, ts)
          | _ => None
          end) tr.

(** ** A concrete instance: rational elements, identity transforms *)

Definition q_ops : elem_ops Q Q :=
  ElemOps Q Q (fun z m => inject_Z z / inject_Z m)%Q (fun s => 1 - s)%Q
          Qmult Qplus (fun x => x).

(** The posterior of diffusers splits the moments in two along the channel
    axis with [torch.chunk(moments, 2, dim=1)] and unpacks the two parts; a
    single channel gives a single part, and the unpacking raises. *)
Definition two_chunks (moments : tensor Q) : result unit :=
  if dim Ax1 moments =? 1 then inl ValueError else inr tt.

Definition id_codec : codec Q :=
  Codec Q inr inr inr (fun z _ _ => inr z) true inr (fun z => z) two_chunks.

(** A volume whose element at time [t] is [base + t]. *)
Definition ramp (B C T H W : Z) (base : Z) : tensor Q :=
  Tensor (Idx B C T H W) (fun i => inject_Z (base + i2 i)).

Definition origin : idx := Idx 0 0 0 0 0.

(** The wrapper after [enable_z_tiling(4)]. *)
Definition vae_z4 : vae := fst (enable_z_tiling (init 3 512 false) 4).

(** The wrapper after [enable_hw_tiling()]. *)
Definition vae_hw : vae := enable_hw_tiling (init 3 512 false).

(** The wrapper after [set_tiling_params(64, 0)] and [enable_hw_tiling()]. *)
Definition vae_hw0 : vae := enable_hw_tiling (set_tiling_params (init 3 512 false) 64 0).

(** A single-frame volume. *)
Definition single_frame : tensor Q := ramp 1 1 1 4 4 0.

(** A latent volume of seven frames and the target shape of its decoding. *)
Definition seven_frames : tensor Q := ramp 1 1 7 4 4 0.
Definition seven_frames_target : list Z := [1; 1; 49; 4; 4].

(** A sample volume of sixty frames and two channels. *)
Definition sixty_frames : tensor Q := ramp 1 2 60 4 4 0.

(** A single-frame volume of two channels. *)
Definition single_frame_2ch : tensor Q := ramp 1 2 1 4 4 0.

(** The time lengths of the volumes handed to [_hw_tiled_encode] and
    [_encode], in order. *)
Definition encode_calls {elem} (tr : list (event elem)) : list Z :=
  omap (fun ev =>
          match ev with
          | Ev_hw_tiled_encode x => Some (dim Ax2 x)
          | Ev_encode x => Some (dim Ax2 x)
          | _ => None
          end) tr.

(** Two tiles that agree on every axis but time: five frames [0 .. 4] and two
    frames [10, 11]. *)
Definition five_frames : tensor Q := ramp 1 1 5 1 1 0.
Definition two_frames : tensor Q := ramp 1 1 2 1 1 10.

(** ** The memory-budget lookup *)

(** [get_VAE_tile_size(vae_config, device_mem_capacity, mixed_precision)];
    the capacity is a number, and [device_mem_capacity / 1.5] is exact. *)
Definition get_VAE_tile_size (vae_config : Z) (device_mem_capacity : Q)
    (mixed_precision : bool) : Z * Z :=
  let z_tile := 4 in
  let use_vae_config :=
    if vae_config =? 0 then
      let device_mem_capacity :=
        if mixed_precision then (device_mem_capacity / (3 # 2))%Q
        else device_mem_capacity in
      if Qle_bool 24000 device_mem_capacity then 1
      else if Qle_bool 8000 device_mem_capacity then 2
      else 3
    else vae_config in
  let hw_tile :=
    if use_vae_config =? 1 then 0
    else if use_vae_config =? 2 then 512
    else 256 in
  (z_tile, hw_tile).

(** ** Statements about call traces *)

(** Whatever the outcome, the computation [c] only appends events to the
    trace, and every appended event satisfies [P]. *)
Definition emits {E A} (P : E -> Prop) (c : Trace.M E A) : Prop :=
  forall tr, exists new, snd (c tr) = tr ++ new /\ Forall P new.

(** The events [decode] may produce for a wrapper [self] and a target shape
    [ts]: entries into [_hw_tiled_decode] and [_decode] carrying [ts], calls
    of the post-quantisation convolution, and calls of the decoder with [ts]
    or with the tile shape derived from it. *)
Definition decode_event {elem} (self : vae) (ts : list Z) (ev : event elem) : Prop :=
  match ev with
  | Ev_hw_tiled_decode _ ts' _ => ts' = ts
  | Ev_decode _ ts' _ => ts' = ts
  | EvPostQuantConv _ => True
  | EvDecoder _ ts' _ =>
      ts' = ts
      \/ ts' = take 3 ts ++ [tile_sample_min_size self; tile_sample_min_size self]
  | _ => False
  end.

(** The tensors the encoder was called with, in order. *)
Definition encoder_inputs {elem} (tr : list (event elem)) : list (tensor elem) :=
  omap (fun ev => match ev with EvEncoder x => Some x | _ => None end) tr.

(** The tensors the latent normaliser was called with, in order. *)
Definition latent_norm_inputs {elem} (tr : list (event elem)) : list (tensor elem) :=
  omap (fun ev => match ev with EvLatentNorm x => Some x | _ => None end) tr.

(** The length of [t[:limit]] along an axis of length [n]. *)
Definition crop_len (limit n : Z) : Z := Z.max 0 (slice_bound n n (Some limit) - 0).

(** A codec whose encoder raises. *)
Definition failing_codec : codec Q :=
  Codec Q (fun _ => inl RuntimeError) inr inr (fun z _ _ => inr z) true inr
        (fun z => z) two_chunks.

(** The wrapper built with latent normalisation on, for 3-D data. *)
Definition vae_bn3d : vae := init 3 512 true.

(** A volume of six channels whose element in channel [c] is [c]. *)
Definition six_channels : tensor Q :=
  Tensor (Idx 1 6 2 2 2) (fun i => inject_Z (i1 i)).

(** Two tiles that disagree on the height: extents 2 and 3. *)
Definition low_frames : tensor Q := ramp 1 1 5 2 1 0.
Definition tall_frames : tensor Q := ramp 1 1 2 3 1 10.

(** The per-segment transform of the temporally tiled decode: the window is
    handed to the spatial controller or to the transform adapter. *)
Definition decode_window {elem scalar : Type} (ops : elem_ops elem scalar)
    (net : codec elem) (self : vae) (target_shape : list Z)
    (timestep : option (tensor elem)) (w : tensor elem)
  : Trace.M (event elem) (tensor elem) :=
  if use_hw_tiling self then _hw_tiled_decode ops net self w target_shape timestep
  else _decode net self w target_shape timestep.

(** The wrapper after the rejected call [enable_z_tiling(2)]. *)
Definition vae_z2 : vae := fst (enable_z_tiling (init 3 512 false) 2).

(** The events that are not calls of the latent normaliser. *)
Definition not_latent_norm {elem} (ev : event elem) : Prop :=
  match ev with EvLatentNorm _ => False | _ => True end.

(** The shapes of a grid of tiles that share batch, channel and time extents,
    with one height per row and one width per column. *)
Definition grid_shapes (B C T : Z) (hs ws : list Z) : list (list idx) :=
  (fun h => (fun w => Idx B C T h w) <$> ws) <$> hs.

(** A volume for the spatial controller: 3 frames of 100 by 70. *)
Definition hw_volume : tensor Q := ramp 1 1 3 100 70 0.

(** Three segments of 33, 32 and 11 frames. *)
Definition three_segments : list (tensor Q) :=
  [ramp 1 1 33 4 4 0; ramp 1 1 32 4 4 25; ramp 1 1 11 4 4 49].

(** A grid of two rows and two columns of tiles: heights 2 and 1, widths 2
    and 1. *)
Definition four_tiles : list (list (tensor Q)) :=
  [[ramp 1 1 3 2 2 0; ramp 1 1 3 2 1 0]; [ramp 1 1 3 1 2 0; ramp 1 1 3 1 1 0]].

(** The grid [rows] has the shapes [grid_shapes B C T hs ws]. *)
Definition grid_has_shapes {elem} (B C T : Z) (hs ws : list Z)
    (rows : list (list (tensor elem))) : Prop :=
  (fun row : list (tensor elem) => shape <$> row) <$> rows
  = grid_shapes B C T hs ws.

(** The wrapper built for 2-D data with latent normalisation on. *)
Definition vae_bn2d : vae := init 2 512 true.

(** An integer that the conversion to a float represents exactly. *)
Definition float_exact (n : Z) : Prop := Z.abs n < 2 ^ 53.

(** The configurations reached through the constructor and the configuration
    methods when every sample size handed over is exactly representable as a
    float: then [sample_size / 32] is exact, cannot overflow, and [int(...)]
    is its truncation. *)
Inductive reachable_exact : vae -> Prop :=
| reach_exact_init d s n : float_exact s -> reachable_exact (init d s n)
| reach_exact_set_tiling_params st s f :
    float_exact s -> reachable_exact st -> reachable_exact (set_tiling_params st s f)
| reach_exact_enable_z st z :
    reachable_exact st -> reachable_exact (fst (enable_z_tiling st z))
| reach_exact_disable_z st : reachable_exact st -> reachable_exact (disable_z_tiling st)
| reach_exact_enable_hw st : reachable_exact st -> reachable_exact (enable_hw_tiling st)
| reach_exact_disable_hw st : reachable_exact st -> reachable_exact (disable_hw_tiling st).

(** Settings at which the float products of the spatial geometry,
    [size * (1 - overlap_factor)] and [size * overlap_factor], are exact: the
    overlap factor is 0 or 0.25 and both tile sizes are below [2 ^ 50] in
    absolute value. *)
Definition exact_hw_geometry (self : vae) : Prop :=
  (tile_overlap_factor self = 0%Q \/ tile_overlap_factor self = (1 # 4)%Q)
  /\ Z.abs (tile_sample_min_size self) < 2 ^ 50
  /\ Z.abs (tile_latent_min_size self) < 2 ^ 50.

(** The volumes handed to [_hw_tiled_encode] and [_encode], in order. *)
Definition encode_entries {elem} (tr : list (event elem)) : list (tensor elem) :=
  omap (fun ev =>
          match ev with
          | Ev_hw_tiled_encode x => Some x
          | Ev_encode x => Some x
          | _ => None
          end) tr.

(** The volumes handed to [_hw_tiled_decode] and [_decode], in order. *)
Definition decode_entries {elem} (tr : list (event elem)) : list (tensor elem) :=
  omap (fun ev =>
          match ev with
          | Ev_hw_tiled_decode z _ _ => Some z
          | Ev_decode z _ _ => Some z
          | _ => None
          end) tr.

(** The events that are calls of an opaque collaborator, not entries into one
    of the internal transform methods. *)
Definition collaborator_call {elem} (ev : event elem) : Prop :=
  match ev with
  | EvEncoder _ | EvQuantConv _ | EvPostQuantConv _ | EvDecoder _ _ _
  | EvLatentNorm _ => True
  | _ => False
  end.

(** ** Configuration *)

Lemma enable_z_tiling_state (self : vae) (z : Z) :
  use_z_tiling (fst (enable_z_tiling self z)) = (z >? 1)
  /\ z_sample_size (fst (enable_z_tiling self z)) = z.
Proof. split; reflexivity. Qed.

Lemma enable_z_tiling_result (self : vae) (z : Z) :
  snd (enable_z_tiling self z)
  = if (z mod 4 =? 0) || (z =? 1) then inr tt else inl AssertionError.
Proof. reflexivity. Qed.

(** In every reachable state, temporal tiling is on only with a tile size
    above 1. *)
Lemma reachable_z_tiling_size (self : vae) :
  reachable self -> use_z_tiling self = true -> z_sample_size self > 1.
Proof.
  induction 1 as [d s n | st s f _ IH | st z _ _ | st _ _ | st _ IH | st _ IH];
    cbn; try discriminate; try exact IH.
  intros Hz. apply Z.gtb_lt in Hz. lia.
Qed.

(** C7.  [enable_z_tiling(z)] raises its assertion error exactly when [z] is
    neither 1 nor a multiple of 4, and otherwise returns normally;
    [enable_z_tiling(5)] raises and [enable_z_tiling(8)] returns.  The call is
    a configuration step: it yields only the new configuration and the
    outcome, and runs no tiling operation. *)
Theorem enable_z_tiling_rejects_iff (self : vae) (z : Z) :
  (snd (enable_z_tiling self z) = inl AssertionError
   <-> ~ (z = 1 \/ exists k, z = 4 * k))
  /\ (snd (enable_z_tiling self z) = inr tt
      <-> (z = 1 \/ exists k, z = 4 * k))
  /\ snd (enable_z_tiling self 5) = inl AssertionError
  /\ snd (enable_z_tiling self 8) = inr tt.
Proof.
  assert (Hmul : (z mod 4 =? 0) || (z =? 1) = true <-> (z = 1 \/ exists k, z = 4 * k)).
  { rewrite orb_true_iff, Z.eqb_eq, Z.eqb_eq. split.
    - intros [Hm | H1]; [right | left; exact H1].
      exists (z / 4). pose proof (Z.div_mod z 4). lia.
    - intros [H1 | [k Hk]]; [right; exact H1 | left].
      subst z. rewrite Z.mul_comm. apply Z.mod_mul. lia. }
  rewrite enable_z_tiling_result.
  split; [| split; [| split; reflexivity]].
  - destruct ((z mod 4 =? 0) || (z =? 1)) eqn:E; split.
    + discriminate.
    + intros Hn. exfalso. apply Hn, Hmul. reflexivity.
    + intros _ Hn. apply Hmul in Hn. discriminate.
    + reflexivity.
  - destruct ((z mod 4 =? 0) || (z =? 1)) eqn:E; split.
    + intros _. apply Hmul. reflexivity.
    + reflexivity.
    + discriminate.
    + intros Hn. apply Hmul in Hn. discriminate.
Qed.

(** C10.  When [z] is neither 1 nor a multiple of 4, the call raises, and the
    state it leaves behind has [use_z_tiling = (z > 1)] and
    [z_sample_size = z]: the assignment precedes the check. *)
Theorem enable_z_tiling_not_atomic (self : vae) (z : Z) :
  z <> 1 -> z mod 4 <> 0 ->
  snd (enable_z_tiling self z) = inl AssertionError
  /\ use_z_tiling (fst (enable_z_tiling self z)) = (z >? 1)
  /\ z_sample_size (fst (enable_z_tiling self z)) = z.
Proof.
  intros H1 H4. split; [| apply enable_z_tiling_state].
  rewrite enable_z_tiling_result.
  apply Z.eqb_neq in H1, H4. rewrite H1, H4. reflexivity.
Qed.

Lemma enable_z_tiling_not_atomic_witness :
  5 <> 1 /\ 5 mod 4 <> 0
  /\ snd (enable_z_tiling (init 3 512 false) 5) = inl AssertionError
  /\ use_z_tiling (fst (enable_z_tiling (init 3 512 false) 5)) = (5 >? 1)
  /\ z_sample_size (fst (enable_z_tiling (init 3 512 false) 5)) = 5.
Proof.
  assert (H1 : 5 <> 1) by lia.
  assert (H4 : 5 mod 4 <> 0) by (vm_compute; discriminate).
  exact (conj H1 (conj H4 (enable_z_tiling_not_atomic (init 3 512 false) 5 H1 H4))).
Defined.

(** ** Dispatch *)

Section Dispatch.

Context {elem scalar : Type}.
Variable ops : elem_ops elem scalar.
Variable net : codec elem.

(** C3.  With a [BatchNorm2d] latent normaliser (built by the constructor for
    [dims = 2] with latent normalisation on) the normalisation step raises
    [NotImplementedError], but the unnormalisation step returns its input:
    its second test asks for [BatchNorm3d] again. *)
Theorem unnormalize_batchnorm2d_returns_input
    (sample_size : Z) (z : tensor elem) (tr : list (event elem)) :
  latent_norm_out (init 2 sample_size true) = BatchNorm2d
  /\ _normalize_latent_channels net (init 2 sample_size true) z tr
     = (inl NotImplementedError, tr)
  /\ _unnormalize_latent_channels net (init 2 sample_size true) z tr
     = (inr z, tr).
Proof. repeat split. Qed.

(** C8.  [decode] without a target shape raises its assertion error at once:
    the trace is returned as it was received, and no value is produced. *)
Theorem decode_requires_target_shape
    (self : vae) (z : tensor elem) (return_dict : bool)
    (timestep : option (tensor elem)) (tr : list (event elem)) :
  decode ops net self z return_dict None timestep tr = (inl AssertionError, tr).
Proof. reflexivity. Qed.

(** C6.  In every reachable configuration the temporally tiled branch of
    [encode], and of [decode] called with a target shape, is taken exactly
    when temporal tiling is on, the time length exceeds [z_sample_size + 1]
    and [z_sample_size > 1]; otherwise the other branch is taken.  What
    follows the branch is the same on both sides: [encode] builds the
    posterior from the moments, which may raise, and wraps it; [decode] wraps
    the sample. *)
Theorem z_tiling_engages_iff (self : vae) (z : tensor elem) :
  reachable self ->
  let engaged :=
    use_z_tiling self
    && (dim Ax2 z >? z_sample_size self + 1)
    && (z_sample_size self >? 1) in
  z_tiling_engaged self z = engaged
  /\ (forall return_dict,
        encode ops net self z return_dict
        = bind (if engaged
                then encode_z_tiled ops net self z return_dict
                else encode_untiled_z ops net self z return_dict)
               (fun moments =>
                  let* _ := lift (diagonal_gaussian net moments) in
                  if negb return_dict then ret (PosteriorTuple moments)
                  else ret (AutoencoderKLOutput moments)))
  /\ (forall return_dict target_shape timestep,
        decode ops net self z return_dict (Some target_shape) timestep
        = bind (if engaged
                then decode_z_tiled ops net self z target_shape timestep
                else decode_untiled_z ops net self z target_shape timestep)
               (fun dec =>
                  if negb return_dict then ret (SampleTuple dec)
                  else ret (DecoderOutput dec))).
Proof.
  intros Hr engaged.
  assert (He : z_tiling_engaged self z = engaged).
  { unfold z_tiling_engaged, engaged.
    destruct (use_z_tiling self) eqn:Hu; [| reflexivity].
    pose proof (reachable_z_tiling_size self Hr Hu) as Hz. cbn.
    replace (z_sample_size self + 1 >? 1) with true by (symmetry; apply Z.gtb_lt; lia).
    replace (z_sample_size self >? 1) with true by (symmetry; apply Z.gtb_lt; lia).
    reflexivity. }
  split; [exact He |].
  split; intros; unfold encode, decode; rewrite He; reflexivity.
Qed.

(** A volume of at most one frame never takes the temporally tiled branch. *)
Lemma z_tiling_not_engaged_single_frame (self : vae) (z : tensor elem) :
  dim Ax2 z <= 1 -> z_tiling_engaged self z = false.
Proof.
  intros HT. unfold z_tiling_engaged.
  destruct (use_z_tiling self); [| reflexivity]. cbn [andb].
  destruct (z_sample_size self + 1 >? 1) eqn:E; [| apply andb_false_r].
  apply Z.gtb_lt in E.
  replace (dim Ax2 z >? z_sample_size self + 1) with false; [reflexivity |].
  symmetry. rewrite Z.gtb_ltb. apply Z.ltb_ge. lia.
Qed.

(** [encode] sends a volume of at most one frame to [_encode], whatever the
    tiling switches. *)
Lemma encode_single_frame_untiled (self : vae) (z : tensor elem) (return_dict : bool) :
  dim Ax2 z <= 1 ->
  encode ops net self z return_dict
  = bind (_encode net self z)
         (fun moments =>
            let* _ := lift (diagonal_gaussian net moments) in
            if negb return_dict then ret (PosteriorTuple moments)
            else ret (AutoencoderKLOutput moments)).
Proof.
  intros HT. unfold encode, encode_untiled_z.
  rewrite (z_tiling_not_engaged_single_frame self z HT).
  replace (dim Ax2 z >? 1) with false by (symmetry; rewrite Z.gtb_ltb; apply Z.ltb_ge; lia).
  rewrite andb_false_r. reflexivity.
Qed.

(** [decode] sends it to [_hw_tiled_decode] as soon as spatial tiling is on. *)
Lemma decode_single_frame_hw_tiled (self : vae) (z : tensor elem)
    (return_dict : bool) (target_shape : list Z) (timestep : option (tensor elem)) :
  dim Ax2 z <= 1 -> use_hw_tiling self = true ->
  decode ops net self z return_dict (Some target_shape) timestep
  = bind (_hw_tiled_decode ops net self z target_shape timestep)
         (fun dec =>
            if negb return_dict then ret (SampleTuple dec)
            else ret (DecoderOutput dec)).
Proof.
  intros HT Hhw. unfold decode, decode_untiled_z.
  rewrite (z_tiling_not_engaged_single_frame self z HT), Hhw. reflexivity.
Qed.

(** The per-segment override of the target shape has no effect on what a
    segment is decoded with: both delegations receive [target_shape]. *)
Lemma decode_segment_ignores_override (self : vae) (z : tensor elem)
    (tile_latent_min_tsize : Z) (target_shape : list Z)
    (timestep : option (tensor elem)) (i : Z) :
  (2 < length target_shape)%nat ->
  decode_segment ops net self z tile_latent_min_tsize target_shape timestep i
  = (let tile := tslice Ax2 (Some i) (Some (i + tile_latent_min_tsize + 1)) z in
     let* _ := ret (<[2%nat := dim Ax2 tile * 8]> target_shape) in
     let* decoded :=
       (if use_hw_tiling self
        then _hw_tiled_decode ops net self tile target_shape timestep
        else _decode net self tile target_shape timestep) in
     ret (to_float16_cpu ops (drop_leading_frame i decoded))).
Proof.
  intros Hlen. unfold decode_segment, target_shape_split.
  apply Nat.ltb_lt in Hlen. rewrite Hlen. reflexivity.
Qed.

End Dispatch.

Lemma vae_z4_reachable : reachable vae_z4.
Proof. unfold vae_z4. apply reach_enable_z, reach_init. Qed.

Lemma z_tiling_engages_iff_witness :
  reachable vae_z4
  /\ z_tiling_engaged vae_z4 seven_frames
     = use_z_tiling vae_z4
       && (dim Ax2 seven_frames >? z_sample_size vae_z4 + 1)
       && (z_sample_size vae_z4 >? 1).
Proof.
  split; [exact vae_z4_reachable |].
  exact (proj1 (z_tiling_engages_iff q_ops id_codec vae_z4 seven_frames
                  vae_z4_reachable)).
Defined.

(** C2.  With spatial tiling on and temporal tiling off, a single-frame volume
    is encoded through [_encode], but decoded through [_hw_tiled_decode]:
    [decode] tests [use_hw_tiling] alone. *)
Theorem decode_single_frame_is_hw_tiled :
  dim Ax2 single_frame = 1
  /\ use_hw_tiling vae_hw = true
  /\ entered (snd (encode q_ops id_codec vae_hw single_frame true []))
     = [M_encode]
  /\ entered (snd (decode q_ops id_codec vae_hw single_frame true
                     (Some [1; 1; 1; 4; 4]) None []))
     = [M_hw_tiled_decode].
Proof. repeat split; vm_compute; reflexivity. Qed.

(** C1.  Decoding seven latent frames with [z_sample_size = 4] hands over
    three segments of 5, 4 and 1 frames.  Each of them is delegated with the
    caller's target shape, whose time extent is 49, and not with a shape whose
    time extent is 8 times the segment's (40, 32 and 8). *)
Theorem decode_segments_get_caller_target_shape :
  decode_calls (snd (decode q_ops id_codec vae_z4 seven_frames true
                       (Some seven_frames_target) None []))
  = [(5, seven_frames_target); (4, seven_frames_target); (1, seven_frames_target)]
  /\ decode_calls (snd (decode q_ops id_codec (enable_hw_tiling vae_z4) seven_frames
                          true (Some seven_frames_target) None []))
     = [(5, seven_frames_target); (4, seven_frames_target); (1, seven_frames_target)]
  /\ target_shape_split seven_frames_target (5 * 8) = inr [1; 1; 40; 4; 4].
Proof. repeat split; vm_compute; reflexivity. Qed.

(** ** The blend operators *)

Section Blend.

Context {elem scalar : Type}.
Variable ops : elem_ops elem scalar.

Lemma axis_eqb_false (x ax : axis) : axis_eqb x ax = false -> x <> ax.
Proof. destruct x, ax; cbn; congruence. Qed.

Lemma get_set_same (ax : axis) (v : Z) (i : idx) : get ax (set ax v i) = v.
Proof. destruct ax; reflexivity. Qed.

Lemma set_get_same (ax : axis) (i : idx) : set ax (get ax i) i = i.
Proof. destruct ax, i; reflexivity. Qed.

Lemma other_axes_spec (ax x : axis) : x ∈ other_axes ax -> x <> ax.
Proof. destruct ax, x; vm_compute; intros H; try congruence; exfalso;
  repeat (inversion H as [| ? ? ? H']; subst; clear H; rename H' into H);
  inversion H.
Qed.

(** The loop body is never entered for an extent of 0 or less. *)
Lemma blend_nonpos (ax : axis) (a b : tensor elem) (e : Z) :
  e <= 0 -> blend ops ax a b e = inr b.
Proof.
  intros He. unfold blend, py_range1.
  replace (Z.to_nat (py_min3 (dim ax a) (dim ax b) e)) with O; [reflexivity |].
  unfold py_min3. lia.
Qed.

Lemma bcast_ok_same (ax : axis) (sa sb : idx) :
  (forall x, x <> ax -> get x sa = get x sb) -> bcast_ok ax sa sb = true.
Proof.
  intros H.
  assert (Hx : forall x, axis_eqb x ax || (get x sa =? get x sb) || (get x sa =? 1) = true).
  { intros x. destruct (axis_eqb x ax) eqn:E; [reflexivity |].
    rewrite (H x (axis_eqb_false _ _ E)), Z.eqb_refl. reflexivity. }
  unfold bcast_ok, all_axes. cbn [forallb]. rewrite !Hx. reflexivity.
Qed.

Lemma bcast1_id (sa : idx) (x : axis) (i : idx) :
  (get x sa = 1 -> get x i = 0) -> bcast1 sa x i = i.
Proof.
  intros H. unfold bcast1. destruct (get x sa =? 1) eqn:E; [| reflexivity].
  apply Z.eqb_eq in E. rewrite <- (H E). apply set_get_same.
Qed.

Lemma bcast_idx_in_range (ax : axis) (sa sb i : idx) :
  (forall x, x <> ax -> get x sa = get x sb) ->
  in_range sb i -> bcast_idx ax sa i = i.
Proof.
  intros Hd Hi. unfold bcast_idx.
  assert (Hall : forall x, x ∈ other_axes ax -> x <> ax) by (intros; by apply other_axes_spec).
  induction (other_axes ax) as [| x l IH]; [reflexivity |].
  cbn. rewrite IH by (intros y Hy; apply Hall; by right).
  apply bcast1_id. intros H1.
  rewrite (Hd x) in H1 by (apply Hall; by left).
  specialize (Hi x). lia.
Qed.

(** The invariant of the loop of [blend]: after the iterations [0 .. s - 1],
    the slices below [s] hold the cross-fade for the clamped extent [m], and
    the others are those of [b]. *)
Lemma blend_loop (ax : axis) (a b : tensor elem) (m : Z) :
  m <= dim ax a -> m <= dim ax b ->
  (forall x, x <> ax -> dim x a = dim x b) ->
  forall (k s : nat) (r : tensor elem),
    Z.of_nat s + Z.of_nat k <= m ->
    shape r = shape b ->
    (forall i, in_range (shape b) i ->
       data r i = if get ax i <? Z.of_nat s
                  then crossfade ops ax a b m (get ax i) i else data b i) ->
    exists r',
      rfoldM (blend_step ops ax a m) (map Z.of_nat (seq s k)) r = inr r'
      /\ shape r' = shape b
      /\ forall i, in_range (shape b) i ->
           data r' i = if get ax i <? Z.of_nat (s + k)
                       then crossfade ops ax a b m (get ax i) i else data b i.
Proof.
  intros Hma Hmb Hd. induction k as [| k IH]; intros s r Hsk Hsh Hdat.
  - exists r. rewrite Nat.add_0_r. cbn. auto.
  - cbn [seq map rfoldM].
    assert (Hstep : exists r1, blend_step ops ax a m r (Z.of_nat s) = inr r1
              /\ shape r1 = shape b
              /\ forall i, in_range (shape b) i ->
                   data r1 i = if get ax i <? Z.of_nat (S s)
                               then crossfade ops ax a b m (get ax i) i
                               else data b i).
    { unfold blend_step, py_index, dim in *. rewrite Hsh.
      replace (- m + Z.of_nat s <? 0) with true by (symmetry; apply Z.ltb_lt; lia).
      replace (- m + Z.of_nat s + get ax (shape a) <? 0) with false
        by (symmetry; apply Z.ltb_ge; lia).
      replace (Z.of_nat s <? 0) with false by (symmetry; apply Z.ltb_ge; lia).
      replace (Z.of_nat s <? get ax (shape b)) with true
        by (symmetry; apply Z.ltb_lt; lia).
      cbn [rbind]. rewrite (bcast_ok_same ax _ _ Hd).
      eexists. split; [reflexivity |]. split; [reflexivity |].
      intros i Hi. cbn [data].
      rewrite (bcast_idx_in_range ax (shape a) (shape b) i Hd Hi).
      rewrite (Hdat i Hi).
      destruct (get ax i =? Z.of_nat s) eqn:E.
      - apply Z.eqb_eq in E. rewrite E.
        replace (Z.of_nat s <? Z.of_nat s) with false by (symmetry; apply Z.ltb_ge; lia).
        replace (Z.of_nat s <? Z.of_nat (S s)) with true by (symmetry; apply Z.ltb_lt; lia).
        unfold crossfade, dim.
        replace (get ax (shape a) - m + Z.of_nat s)
          with (- m + Z.of_nat s + get ax (shape a)) by lia.
        reflexivity.
      - apply Z.eqb_neq in E.
        destruct (get ax i <? Z.of_nat s) eqn:E1.
        + replace (get ax i <? Z.of_nat (S s)) with true
            by (symmetry; apply Z.ltb_lt; apply Z.ltb_lt in E1; lia).
          reflexivity.
        + replace (get ax i <? Z.of_nat (S s)) with false
            by (symmetry; apply Z.ltb_ge; apply Z.ltb_ge in E1; lia).
          reflexivity. }
    destruct Hstep as (r1 & Hr1 & Hsh1 & Hdat1).
    rewrite Hr1. cbn [rbind].
    destruct (IH (S s) r1 ltac:(lia) Hsh1 Hdat1) as (r' & Hr' & Hsh' & Hdat').
    exists r'. split; [exact Hr' |]. split; [exact Hsh' |].
    intros i Hi. rewrite (Hdat' i Hi).
    replace (S s + k)%nat with (s + S k)%nat by lia. reflexivity.
Qed.

(** The contract of [blend] for tensors that agree on the other axes. *)
Lemma blend_spec (ax : axis) (a b : tensor elem) (e : Z) :
  (forall x, x <> ax -> dim x a = dim x b) ->
  exists r,
    blend ops ax a b e = inr r
    /\ shape r = shape b
    /\ forall i, in_range (shape b) i ->
         data r i
         = if get ax i <? py_min3 (dim ax a) (dim ax b) e
           then crossfade ops ax a b (py_min3 (dim ax a) (dim ax b) e) (get ax i) i
           else data b i.
Proof.
  intros Hd. unfold blend, py_range1.
  set (m := py_min3 (dim ax a) (dim ax b) e).
  destruct (Z.le_gt_cases m 0) as [Hm | Hm].
  - replace (Z.to_nat m) with O by lia. exists b. cbn.
    split; [reflexivity |]. split; [reflexivity |].
    intros i Hi. specialize (Hi ax).
    replace (get ax i <? m) with false by (symmetry; apply Z.ltb_ge; lia).
    reflexivity.
  - destruct (blend_loop ax a b m ltac:(unfold m, py_min3; lia)
                ltac:(unfold m, py_min3; lia) Hd (Z.to_nat m) O b ltac:(lia)
                eq_refl) as (r & Hr & Hsh & Hdat).
    { intros i Hi. specialize (Hi ax).
      replace (get ax i <? Z.of_nat 0) with false by (symmetry; apply Z.ltb_ge; lia).
      reflexivity. }
    exists r. split; [exact Hr |]. split; [exact Hsh |].
    intros i Hi. rewrite (Hdat i Hi).
    replace (Z.of_nat (0 + Z.to_nat m)) with m by lia. reflexivity.
Qed.

(** C4, amended.  For tensors [a] and [b] that agree on the other four axes
    and every integer [blendExtent], each blend operator returns a tensor of
    the shape of [b] in which, with [m = min(extent(a), extent(b),
    blendExtent)], every slice [k] in [[0, m)] is
    [a[extent(a) - m + k] * (1 - k / m) + b[k] * (k / m)] and every slice at or
    beyond [m] is that of [b]: the clamped extent, and not the caller's, sets
    the offset into [a] and the two weights. *)
Theorem blend_crossfades_clamped_extent
    (op : tensor elem -> tensor elem -> Z -> result (tensor elem))
    (ax : axis) (a b : tensor elem) (blendExtent : Z) :
  In (ax, op) [(Ax2, blend_z ops); (Ax3, blend_v ops); (Ax4, blend_h ops)] ->
  (forall x, x <> ax -> dim x a = dim x b) ->
  let m := py_min3 (dim ax a) (dim ax b) blendExtent in
  exists r,
    op a b blendExtent = inr r
    /\ shape r = shape b
    /\ forall i, in_range (shape b) i ->
         data r i = if get ax i <? m
                    then crossfade ops ax a b m (get ax i) i
                    else data b i.
Proof.
  intros Hop Hd m.
  assert (Hb : op = blend ops ax).
  { cbn in Hop. destruct Hop as [H | [H | [H | []]]]; inversion H; reflexivity. }
  subst op. apply blend_spec. exact Hd.
Qed.

End Blend.

(** ** The spatial controller without overlap *)

Section ZeroOverlap.

Context {elem scalar : Type}.
Variable ops : elem_ops elem scalar.
Variable net : codec elem.

Lemma py_int_mul_zero (n : Z) (f : Q) : (f == 0)%Q -> py_int (inject_Z n * f) = 0.
Proof.
  intros Hf. unfold Qeq in Hf. cbn in Hf. unfold py_int. cbn.
  replace (Qnum f) with 0 by lia. rewrite Z.mul_0_r. reflexivity.
Qed.

Lemma py_int_mul_one_minus_zero (n : Z) (f : Q) :
  (f == 0)%Q -> py_int (inject_Z n * (1 - f)) = n.
Proof.
  intros Hf. unfold Qeq in Hf. cbn in Hf. unfold py_int. cbn.
  replace (Qnum f) with 0 by lia. cbn.
  rewrite Z.add_0_r. apply Z.quot_mul. discriminate.
Qed.

Lemma grid_get_lookup (rows : list (list (tensor elem))) (i j : nat) row t :
  rows !! i = Some row -> row !! j = Some t -> grid_get rows i j = inr t.
Proof. intros Hi Hj. unfold grid_get. rewrite Hi, Hj. reflexivity. Qed.

Lemma grid_set_same (rows : list (list (tensor elem))) (i j : nat) row t :
  rows !! i = Some row -> row !! j = Some t -> grid_set rows i j t = rows.
Proof.
  intros Hi Hj. unfold grid_set.
  revert i Hi. induction rows as [| r rows IH]; intros [| i] Hi; cbn in *;
    try discriminate.
  - inversion Hi; subst. f_equal. apply list_insert_id. exact Hj.
  - f_equal. apply IH. exact Hi.
Qed.

(** The inner composition loop when no slice is blended: the grid is left
    as it is and the row of results is the row of cropped tiles. *)
Lemma blend_tile_loop_nonpos (e rl : Z) (rows : list (list (tensor elem)))
    (i : nat) (row : list (tensor elem)) :
  e <= 0 ->
  rows !! i = Some row ->
  ((0 < i)%nat -> exists row', rows !! (i - 1)%nat = Some row'
                               /\ (length row <= length row')%nat) ->
  forall (k s : nat) (acc : list (tensor elem)),
    (s + k <= length row)%nat ->
    rfoldM (blend_tile ops e rl i) (seq s k) (rows, acc)
    = inr (rows, acc ++ map (crop_hw rl) (take k (drop s row))).
Proof.
  intros He Hrow Habove. induction k as [| k IH]; intros s acc Hsk.
  - rewrite take_0. cbn [seq rfoldM map rmapM rbind]. rewrite app_nil_r. reflexivity.
  - cbn [seq rfoldM].
    destruct (lookup_lt_is_Some_2 row s ltac:(lia)) as [t Ht].
    assert (Hstep : blend_tile ops e rl i (rows, acc) s
                    = inr (rows, acc ++ [crop_hw rl t])).
    { unfold blend_tile. rewrite (grid_get_lookup rows i s row t Hrow Ht).
      cbn [rbind].
      assert (Hv : (if (0 <? i)%nat
                    then let+ above := grid_get rows (i - 1) s in
                         blend_v ops above t e
                    else inr t) = inr t).
      { destruct (0 <? i)%nat eqn:E; [| reflexivity].
        apply Nat.ltb_lt in E. destruct (Habove E) as (row' & Hrow' & Hlen).
        destruct (lookup_lt_is_Some_2 row' s ltac:(lia)) as [t' Ht'].
        rewrite (grid_get_lookup rows (i - 1) s row' t' Hrow' Ht'). cbn [rbind].
        apply blend_nonpos. exact He. }
      rewrite Hv. cbn [rbind].
      rewrite (grid_set_same rows i s row t Hrow Ht).
      assert (Hh : (if (0 <? s)%nat
                    then let+ beside := grid_get rows i (s - 1) in
                         blend_h ops beside t e
                    else inr t) = inr t).
      { destruct (0 <? s)%nat eqn:E; [| reflexivity].
        apply Nat.ltb_lt in E.
        destruct (lookup_lt_is_Some_2 row (s - 1) ltac:(lia)) as [t' Ht'].
        rewrite (grid_get_lookup rows i (s - 1) row t' Hrow Ht'). cbn [rbind].
        apply blend_nonpos. exact He. }
      rewrite Hh. cbn [rbind].
      rewrite (grid_set_same rows i s row t Hrow Ht). reflexivity. }
    rewrite Hstep. cbn [rbind]. rewrite IH by lia.
    rewrite (drop_S row t s Ht), firstn_cons. cbn [map].
    rewrite <- app_assoc. reflexivity.
Qed.

(** The outer composition loop when no slice is blended. *)
Lemma blend_row_loop_nonpos (e rl : Z) (rows : list (list (tensor elem))) (n : nat) :
  e <= 0 ->
  Forall (fun row => length row = n) rows ->
  forall (k s : nat) (acc : list (tensor elem)),
    (s + k <= length rows)%nat ->
    rfoldM (blend_row ops e rl) (seq s k) (rows, acc)
    = (let+ rs := rmapM (fun row => cat Ax4 (map (crop_hw rl) row))
                        (take k (drop s rows)) in
       inr (rows, acc ++ rs)).
Proof.
  intros He Hrect. induction k as [| k IH]; intros s acc Hsk.
  - rewrite take_0. cbn [seq rfoldM map rmapM rbind]. rewrite app_nil_r. reflexivity.
  - cbn [seq rfoldM].
    destruct (lookup_lt_is_Some_2 rows s ltac:(lia)) as [row Hrow].
    rewrite (drop_S rows row s Hrow), firstn_cons. cbn [rmapM].
    unfold blend_row at 1. rewrite Hrow.
    rewrite (blend_tile_loop_nonpos e rl rows s row He Hrow).
    + cbn [rbind app]. rewrite drop_0, firstn_all.
      destruct (cat Ax4 (map (crop_hw rl) row)) as [err | r]; [reflexivity |].
      cbn [rbind]. rewrite IH by lia.
      destruct (rmapM _ (take k (drop (S s) rows))) as [err | rs]; [reflexivity |].
      cbn [rbind]. rewrite <- app_assoc. reflexivity.
    + intros Hs.
      destruct (lookup_lt_is_Some_2 rows (s - 1) ltac:(lia)) as [row' Hrow'].
      exists row'. split; [exact Hrow' |].
      rewrite Forall_lookup in Hrect.
      rewrite (Hrect _ _ Hrow), (Hrect _ _ Hrow'). lia.
    + lia.
Qed.

(** With an extent of 0 or less, composing a rectangular grid is cropping
    and concatenating its tiles. *)
Lemma blend_rows_nonpos (e rl : Z) (rows : list (list (tensor elem))) (n : nat) :
  e <= 0 ->
  Forall (fun row => length row = n) rows ->
  blend_rows ops e rl rows = concat_cropped rl rows.
Proof.
  intros He Hrect. unfold blend_rows, concat_cropped.
  rewrite (blend_row_loop_nonpos e rl rows n He Hrect) by lia.
  rewrite drop_0, firstn_all. cbn [app].
  destruct (rmapM _ rows) as [err | rs]; reflexivity.
Qed.

Lemma mapM_length {A B} (f : A -> Trace.M (event elem) B) (l : list A) tr ys tr' :
  mapM f l tr = (inr ys, tr') -> length ys = length l.
Proof.
  revert tr ys tr'. induction l as [| x l IH]; intros tr ys tr' H; cbn in H.
  - inversion H. reflexivity.
  - unfold bind in H. destruct (f x tr) as [[err | y] tr1]; [discriminate |].
    destruct (mapM f l tr1) as [[err | ys'] tr2] eqn:E; [discriminate |].
    inversion H; subst. cbn. f_equal. exact (IH _ _ _ E).
Qed.

(** The extraction loops build a rectangular grid. *)
Lemma tile_grid_rectangular (x : tensor elem) (overlap_size : Z)
    (f : Z -> Z -> Trace.M (event elem) (tensor elem)) tr rows tr' :
  tile_grid x overlap_size f tr = (inr rows, tr') ->
  exists n, Forall (fun row => length row = n) rows.
Proof.
  unfold tile_grid, bind, lift.
  destruct (py_range (dim Ax3 x) overlap_size) as [err | origins]; [discriminate |].
  destruct (py_range (dim Ax4 x) overlap_size) as [err | js].
  - destruct origins as [| i origins]; cbn; intros H; [| discriminate].
    inversion H. exists O. constructor.
  - exists (length js). revert tr rows tr' H.
    induction origins as [| i origins IH]; intros tr rows tr' H; cbn in H.
    + inversion H. constructor.
    + unfold bind in H.
      destruct (mapM (f i) js tr) as [[err | row] tr1] eqn:E1; [discriminate |].
      destruct (mapM _ origins tr1) as [[err | rows'] tr2] eqn:E2; [discriminate |].
      inversion H; subst. constructor.
      * exact (mapM_length _ _ _ _ _ E1).
      * exact (IH _ _ _ E2).
Qed.

(** C9.  With an overlap factor of 0, the blend extent derived by the spatial
    controller is 0 in both directions; each of the three blend operators
    returns [b] itself for every extent of 0 or less; and the spatially tiled
    encode and decode are the extraction of the tiles at a stride of one tile
    size followed by cropping and concatenating them, with no cross-fade. *)
Theorem zero_overlap_is_pure_concatenation (self : vae) :
  (tile_overlap_factor self == 0)%Q ->
  py_int (inject_Z (tile_latent_min_size self) * tile_overlap_factor self) = 0
  /\ py_int (inject_Z (tile_sample_min_size self) * tile_overlap_factor self) = 0
  /\ (forall (a b : tensor elem) (blendExtent : Z),
        blendExtent <= 0 ->
        blend_z ops a b blendExtent = inr b
        /\ blend_v ops a b blendExtent = inr b
        /\ blend_h ops a b blendExtent = inr b)
  /\ (forall x return_dict tr,
        _hw_tiled_encode ops net self x return_dict tr
        = (let* _ := emit (Ev_hw_tiled_encode x) in
           let* rows := tile_grid x (tile_sample_min_size self)
                                  (hw_encode_tile net self x) in
           lift (concat_cropped (tile_latent_min_size self) rows)) tr)
  /\ (forall z target_shape timestep tr,
        _hw_tiled_decode ops net self z target_shape timestep tr
        = (let* _ := emit (Ev_hw_tiled_decode z target_shape timestep) in
           let* rows :=
             tile_grid z (tile_latent_min_size self)
               (hw_decode_tile net self z
                  (take 3 target_shape
                   ++ [tile_sample_min_size self; tile_sample_min_size self])
                  timestep) in
           lift (concat_cropped (tile_sample_min_size self) rows)) tr).
Proof.
  intros Hf.
  split; [apply py_int_mul_zero; exact Hf |].
  split; [apply py_int_mul_zero; exact Hf |].
  split; [intros a b e He; repeat split; apply blend_nonpos; exact He |].
  split.
  - intros x rd tr. unfold _hw_tiled_encode.
    rewrite (py_int_mul_zero _ _ Hf), (py_int_mul_one_minus_zero _ _ Hf), Z.sub_0_r.
    unfold bind, emit, lift.
    destruct (tile_grid x _ _ _) as [[err | rows] tr1] eqn:E; [reflexivity |].
    destruct (tile_grid_rectangular _ _ _ _ _ _ E) as [n Hn].
    rewrite (blend_rows_nonpos 0 _ rows n ltac:(lia) Hn). reflexivity.
  - intros z ts t tr. unfold _hw_tiled_decode.
    rewrite (py_int_mul_zero _ _ Hf), (py_int_mul_one_minus_zero _ _ Hf), Z.sub_0_r.
    unfold bind, emit, lift.
    destruct (tile_grid z _ _ _) as [[err | rows] tr1] eqn:E; [reflexivity |].
    destruct (tile_grid_rectangular _ _ _ _ _ _ E) as [n Hn].
    rewrite (blend_rows_nonpos 0 _ rows n ltac:(lia) Hn). reflexivity.
Qed.

End ZeroOverlap.

(** ** The temporal controller *)

Section Temporal.

Context {elem scalar : Type}.
Variable ops : elem_ops elem scalar.
Variable net : codec elem.

(** The composition loop from segment [S (length pre)] on, where [prev] is
    the segment before it as the loop left it. *)
Lemma blend_segment_loop (e tl : Z) :
  forall (rest pre : list (tensor elem)) (prev : tensor elem)
         (acc : list (tensor elem)),
    (let+ st := rfoldM (blend_segment ops e tl)
                       (seq (S (length pre)) (length rest))
                       (pre ++ prev :: rest, acc) in
     inr (snd st))
    = (let+ out := compose_rest ops e tl prev rest in inr (acc ++ out)).
Proof.
  induction rest as [| s rest IH]; intros pre prev acc.
  - cbn. rewrite app_nil_r. reflexivity.
  - cbn [length seq rfoldM compose_rest].
    assert (Hrow : pre ++ prev :: s :: rest = (pre ++ [prev]) ++ s :: rest)
      by (rewrite <- app_assoc; reflexivity).
    assert (Hlen : S (length pre) = length (pre ++ [prev]))
      by (rewrite length_app; cbn; lia).
    unfold blend_segment at 1.
    replace ((pre ++ prev :: s :: rest) !! S (length pre)) with (Some s)
      by (symmetry; rewrite Hrow; apply list_lookup_middle; exact Hlen).
    replace (0 <? S (length pre))%nat with true by reflexivity.
    replace ((pre ++ prev :: s :: rest) !! (S (length pre) - 1)%nat) with (Some prev)
      by (symmetry; apply list_lookup_middle; lia).
    destruct (blend_z ops prev s e) as [err | s']; [reflexivity |].
    cbn [rbind].
    replace (<[S (length pre) := s']> (pre ++ prev :: s :: rest))
      with ((pre ++ [prev]) ++ s' :: rest).
    + rewrite Hlen. rewrite IH.
      destruct (compose_rest ops e tl s' rest) as [err | out]; [reflexivity |].
      cbn [rbind]. rewrite <- app_assoc. reflexivity.
    + rewrite Hrow, Hlen.
      rewrite insert_app_r_alt by lia. rewrite Nat.sub_diag. reflexivity.
Qed.

(** The composition loop of the temporal controller computes
    [compose_temporal]. *)
Lemma blend_segments_spec (e tl : Z) (row : list (tensor elem)) :
  blend_segments ops e tl row = compose_temporal ops e tl row.
Proof.
  unfold blend_segments, compose_temporal.
  destruct row as [| s0 rest]; [reflexivity |].
  cbn [length seq rfoldM]. unfold blend_segment at 1. cbn [lookup list_lookup].
  replace (0 <? 0)%nat with false by reflexivity. cbn [rbind app].
  pose proof (blend_segment_loop e tl rest [] s0
                [tslice Ax2 None (Some (tl + 1)) s0]) as H.
  cbn [length app] in H.
  destruct (rfoldM _ (seq 1 (length rest)) _) as [err | [row' rr]];
    destruct (compose_rest ops e tl s0 rest) as [err' | out];
    cbn [rbind snd] in H; try discriminate.
  - inversion H. reflexivity.
  - inversion H; subst. reflexivity.
Qed.

Lemma py_range_origins (T stride : Z) :
  0 < T -> 0 < stride -> py_range T stride = inr (origins T stride).
Proof.
  intros HT Hs. unfold py_range, origins, py_range_len.
  replace (stride =? 0) with false by (symmetry; apply Z.eqb_neq; lia).
  replace (0 <? stride) with true by (symmetry; apply Z.ltb_lt; lia).
  replace (0 <? T) with true by (symmetry; apply Z.ltb_lt; lia).
  replace (T + stride - 1) with (T - 1 + 1 * stride) by lia.
  rewrite Z.div_add by lia. reflexivity.
Qed.

Lemma origins_bounds (T stride i : Z) :
  0 < T -> 0 < stride -> In i (origins T stride) -> 0 <= i < T.
Proof.
  intros HT Hs Hi. unfold origins in Hi.
  apply in_map_iff in Hi. destruct Hi as (k & <- & Hk).
  apply in_seq in Hk.
  replace (T + stride - 1) with (T - 1 + 1 * stride) in Hk by lia.
  rewrite Z.div_add in Hk by lia.
  pose proof (Z.mul_div_le (T - 1) stride Hs).
  pose proof (Z.div_pos (T - 1) stride ltac:(lia) Hs).
  split; [nia |].
  assert (Z.of_nat k <= (T - 1) / stride) by lia. nia.
Qed.

Lemma dim_tslice_window (z : tensor elem) (i len : Z) :
  0 <= i < dim Ax2 z -> 0 < len ->
  dim Ax2 (tslice Ax2 (Some i) (Some (i + len)) z) = Z.min len (dim Ax2 z - i).
Proof.
  intros Hi Hlen. unfold tslice, dim in *. cbn [shape get set slice_bound].
  replace (i <? 0) with false by (symmetry; apply Z.ltb_ge; lia).
  replace (i + len <? 0) with false by (symmetry; apply Z.ltb_ge; lia).
  cbn [i2 get] in *. lia.
Qed.

Lemma temporal_encode_geometry (zs : Z) :
  0 <= zs ->
  py_int (inject_Z (zs * 8) * (1 - (1 # 4))) = zs * 8 * 3 / 4
  /\ py_int (inject_Z zs * (1 # 4)) = zs / 4.
Proof.
  intros Hz. unfold py_int. cbn.
  change (1 * 4 + - (1) * 1) with 3. change (Z.pos (1 * (1 * 4))) with 4.
  change (Z.pos (1 * 4)) with 4. rewrite Z.mul_1_r.
  split; apply Z.quot_div_nonneg; lia.
Qed.

(** C5, amended.  When the temporally tiled branch of [encode] is taken: the
    windows are the slices [z[:, :, i : i + sampleTimeTileSize + 1]] at the
    origins [0, stride, 2 * stride, ...] below the time length, cut off at the
    end of the volume, so of [min(sampleTimeTileSize + 1, T - i)] frames; each
    window is transformed by the spatial controller or the transform adapter;
    every segment but the first loses its leading frame; the first segment is
    cropped to [timeLimit + 1] frames, each later one is blended along time
    against its predecessor and cropped to [timeLimit] frames; the moments
    are the concatenation along time of the cropped segments, in order; and
    the posterior is built from them. *)
Theorem encode_temporal_tiling (self : vae) (z : tensor elem) (return_dict : bool) :
  z_tiling_engaged self z = true ->
  let T := dim Ax2 z in
  let sampleTimeTileSize := z_sample_size self * 8 in
  let stride := sampleTimeTileSize * 3 / 4 in
  let blendExtent := z_sample_size self / 4 in
  let timeLimit := z_sample_size self - blendExtent in
  let window i := tslice Ax2 (Some i) (Some (i + sampleTimeTileSize + 1)) z in
  (forall i, In i (origins T stride) ->
             dim Ax2 (window i) = Z.min (sampleTimeTileSize + 1) (T - i))
  /\ forall tr,
       encode ops net self z return_dict tr
       = (let* segments :=
            mapM (fun i =>
                    let* s := encode_window ops net self return_dict (window i) in
                    ret (if i >? 0 then tslice Ax2 (Some 1) None s else s))
                 (origins T stride) in
          let* moments :=
            lift (compose_temporal ops blendExtent timeLimit segments) in
          let* _ := lift (diagonal_gaussian net moments) in
          if negb return_dict then ret (PosteriorTuple moments)
          else ret (AutoencoderKLOutput moments)) tr.
Proof.
  intros Heng T sampleTimeTileSize stride blendExtent timeLimit window.
  assert (Hgeo : 0 < z_sample_size self /\ 0 < T).
  { unfold z_tiling_engaged in Heng.
    apply andb_prop in Heng. destruct Heng as [_ Heng].
    apply andb_prop in Heng. destruct Heng as [H1 H2].
    apply Z.gtb_lt in H1, H2. unfold T. lia. }
  destruct Hgeo as [Hzs HT].
  assert (Hstride : 0 < stride).
  { unfold stride, sampleTimeTileSize.
    replace (z_sample_size self * 8 * 3) with (6 * z_sample_size self * 4) by lia.
    rewrite Z.div_mul by lia. lia. }
  split.
  - intros i Hi. pose proof (origins_bounds T stride i HT Hstride Hi) as Hb.
    unfold window.
    replace (i + sampleTimeTileSize + 1) with (i + (sampleTimeTileSize + 1)) by lia.
    apply dim_tslice_window; [exact Hb | unfold sampleTimeTileSize; lia].
  - intros tr. unfold encode. rewrite Heng. unfold encode_z_tiled.
    destruct (temporal_encode_geometry (z_sample_size self) ltac:(lia)) as [G1 G2].
    rewrite G1, G2.
    fold T. fold sampleTimeTileSize. fold stride. fold blendExtent. fold timeLimit.
    rewrite (py_range_origins T stride HT Hstride).
    unfold bind at 1 2. unfold lift at 1.
    change (mapM (encode_segment ops net self z sampleTimeTileSize return_dict))
      with (mapM (fun i =>
                    let* s := encode_window ops net self return_dict (window i) in
                    ret (if i >? 0 then tslice Ax2 (Some 1) None s else s))).
    unfold bind, lift.
    destruct (mapM _ (origins T stride) tr) as [[err | segments] tr1]; [reflexivity |].
    rewrite blend_segments_spec. reflexivity.
Qed.

End Temporal.

(** ** Instances on rational volumes *)

Lemma blend_crossfades_clamped_extent_witness :
  In (Ax2, blend_z q_ops)
     [(Ax2, blend_z q_ops); (Ax3, blend_v q_ops); (Ax4, blend_h q_ops)]
  /\ (forall x, x <> Ax2 -> dim x five_frames = dim x two_frames)
  /\ exists r,
       blend_z q_ops five_frames two_frames 4 = inr r
       /\ shape r = shape two_frames
       /\ forall i, in_range (shape two_frames) i ->
            data r i
            = if get Ax2 i <? 2
              then crossfade q_ops Ax2 five_frames two_frames 2 (get Ax2 i) i
              else data two_frames i.
Proof.
  assert (H1 : In (Ax2, blend_z q_ops)
                  [(Ax2, blend_z q_ops); (Ax3, blend_v q_ops); (Ax4, blend_h q_ops)])
    by (left; reflexivity).
  assert (H2 : forall x, x <> Ax2 -> dim x five_frames = dim x two_frames)
    by (intros x Hx; destruct x; try reflexivity; congruence).
  exact (conj H1 (conj H2
           (blend_crossfades_clamped_extent q_ops (blend_z q_ops) Ax2
              five_frames two_frames 4 H1 H2))).
Defined.

(** C4 as worded fails: blending two frames against five with
    [blendExtent = 4], slice 0 lies below [min(4, 5, 2)], yet the value
    written there is [a[3]] and not
    [a[5 - 4 + 0] * (1 - 0 / 4) + b[0] * (0 / 4)], which is [a[1]]. *)
Lemma blend_z_caller_extent_formula_fails :
  exists r,
    blend_z q_ops five_frames two_frames 4 = inr r
    /\ in_range (shape two_frames) origin
    /\ 0 <= get Ax2 origin < py_min3 (dim Ax2 five_frames) (dim Ax2 two_frames) 4
    /\ (data r origin == 3)%Q
    /\ (crossfade q_ops Ax2 five_frames two_frames 4 (get Ax2 origin) origin == 1)%Q
    /\ ~ (data r origin
          == crossfade q_ops Ax2 five_frames two_frames 4 (get Ax2 origin) origin)%Q.
Proof.
  eexists. split; [vm_compute; reflexivity |].
  split; [intros a; destruct a; vm_compute; split; congruence |].
  split; [vm_compute; split; congruence |].
  split; [vm_compute; reflexivity |].
  split; [vm_compute; reflexivity |].
  vm_compute. discriminate.
Qed.

Lemma encode_temporal_tiling_witness :
  z_tiling_engaged vae_z4 sixty_frames = true
  /\ (forall i, In i (origins 60 24) ->
        dim Ax2 (tslice Ax2 (Some i) (Some (i + 32 + 1)) sixty_frames)
        = Z.min (32 + 1) (60 - i))
  /\ forall tr,
       encode q_ops id_codec vae_z4 sixty_frames true tr
       = (let* segments :=
            mapM (fun i =>
                    let* s := encode_window q_ops id_codec vae_z4 true
                                (tslice Ax2 (Some i) (Some (i + 32 + 1)) sixty_frames) in
                    ret (if i >? 0 then tslice Ax2 (Some 1) None s else s))
                 (origins 60 24) in
          let* moments := lift (compose_temporal q_ops 1 3 segments) in
          let* _ := lift (two_chunks moments) in
          ret (AutoencoderKLOutput moments)) tr.
Proof.
  split; [reflexivity |].
  exact (encode_temporal_tiling q_ops id_codec vae_z4 sixty_frames true eq_refl).
Defined.

(** C5 as worded fails: with [z_sample_size = 4] every window should have
    [4 * 8 + 1 = 33] frames, yet [encode] of a volume of 60 frames, which
    returns normally, hands over three windows of 33, 33 and 12 frames: the
    window at origin 48 is cut off at the end of the volume. *)
Lemma encode_last_window_is_shorter :
  z_tiling_engaged vae_z4 sixty_frames = true
  /\ (exists out, fst (encode q_ops id_codec vae_z4 sixty_frames true []) = inr out)
  /\ encode_calls (snd (encode q_ops id_codec vae_z4 sixty_frames true []))
     = [33; 33; 12]
  /\ ~ Forall (fun frames => frames = z_sample_size vae_z4 * 8 + 1)
              (encode_calls (snd (encode q_ops id_codec vae_z4 sixty_frames true []))).
Proof.
  assert (H : encode_calls (snd (encode q_ops id_codec vae_z4 sixty_frames true []))
              = [33; 33; 12]) by (vm_compute; reflexivity).
  split; [reflexivity |].
  split; [eexists; vm_compute; reflexivity |].
  split; [exact H |].
  rewrite H. intros HF.
  inversion HF as [| ? ? _ HF1]. inversion HF1 as [| ? ? _ HF2].
  inversion HF2 as [| ? ? H12 _]. vm_compute in H12. discriminate.
Qed.

Lemma zero_overlap_is_pure_concatenation_witness :
  (tile_overlap_factor vae_hw0 == 0)%Q
  /\ py_int (inject_Z (tile_latent_min_size vae_hw0) * tile_overlap_factor vae_hw0) = 0
  /\ (forall x tr,
        _hw_tiled_encode q_ops id_codec vae_hw0 x true tr
        = (let* _ := emit (Ev_hw_tiled_encode x) in
           let* rows := tile_grid x 64 (hw_encode_tile id_codec vae_hw0 x) in
           lift (concat_cropped 2 rows)) tr).
Proof.
  assert (H : (tile_overlap_factor vae_hw0 == 0)%Q) by reflexivity.
  pose proof (zero_overlap_is_pure_concatenation q_ops id_codec vae_hw0 H)
    as (H1 & _ & _ & H4 & _).
  split; [exact H |]. split; [exact H1 |].
  intros x tr. exact (H4 x true tr).
Defined.

(** ** The memory-budget lookup and the configuration *)

Lemma py_int_div_32 (s : Z) : py_int (inject_Z s / 32) = Z.quot s 32.
Proof. unfold py_int. cbn. rewrite Z.mul_1_r. reflexivity. Qed.

(** X1.  Whatever the arguments, the lookup returns the temporal tile size 4
    and a spatial tile size among 0, 512 and 256; handing its temporal tile
    size to [enable_z_tiling] never raises and switches temporal tiling on. *)
Theorem get_VAE_tile_size_is_accepted
    (self : vae) (vae_config : Z) (device_mem_capacity : Q) (mixed_precision : bool) :
  let tiles := get_VAE_tile_size vae_config device_mem_capacity mixed_precision in
  fst tiles = 4
  /\ (snd tiles = 0 \/ snd tiles = 512 \/ snd tiles = 256)
  /\ snd (enable_z_tiling self (fst tiles)) = inr tt
  /\ use_z_tiling (fst (enable_z_tiling self (fst tiles))) = true
  /\ z_sample_size (fst (enable_z_tiling self (fst tiles))) = 4.
Proof.
  cbv zeta. unfold get_VAE_tile_size. cbn [fst snd].
  repeat split.
  destruct (vae_config =? 0).
  - destruct mixed_precision;
      repeat match goal with |- context [Qle_bool ?a ?b] => destruct (Qle_bool a b) end;
      cbn; auto.
  - destruct (vae_config =? 1); [auto |].
    destruct (vae_config =? 2); auto.
Qed.

Lemma Qle_bool_div_3_2 (t : Z) (m : Q) :
  Qle_bool (inject_Z (2 * t)) (m / (3 # 2)) = Qle_bool (inject_Z (3 * t)) m.
Proof.
  apply eq_true_iff_eq. rewrite !Qle_bool_iff.
  destruct m as [n d]. unfold Qle. cbn. lia.
Qed.

(** X2.  In automatic mode ([vae_config = 0]) the spatial tile size is 0 (no
    spatial tiling) from a capacity of 24000 on, 512 from 8000 on and 256
    below; with mixed precision the two thresholds are 36000 and 12000. *)
Theorem get_VAE_tile_size_auto (device_mem_capacity : Q) (mixed_precision : bool) :
  let high := if mixed_precision then 36000%Q else 24000%Q in
  let low := if mixed_precision then 12000%Q else 8000%Q in
  snd (get_VAE_tile_size 0 device_mem_capacity mixed_precision)
  = if Qle_bool high device_mem_capacity then 0
    else if Qle_bool low device_mem_capacity then 512
    else 256.
Proof.
  cbv zeta. unfold get_VAE_tile_size. cbn [snd Z.eqb].
  destruct mixed_precision.
  - change 24000%Q with (inject_Z (2 * 12000)).
    change 8000%Q with (inject_Z (2 * 4000)).
    rewrite !Qle_bool_div_3_2.
    change (inject_Z (3 * 12000)) with 36000%Q.
    change (inject_Z (3 * 4000)) with 12000%Q.
    destruct (Qle_bool 36000 device_mem_capacity); [reflexivity |].
    destruct (Qle_bool 12000 device_mem_capacity); reflexivity.
  - destruct (Qle_bool 24000 device_mem_capacity); [reflexivity |].
    destruct (Qle_bool 8000 device_mem_capacity); reflexivity.
Qed.

(** X3.  In every configuration reached through the constructor and the
    configuration methods with sample sizes below [2 ^ 53] in absolute value
    (for which the float quotient [sample_size / 32] is exact), the latent
    tile size is the sample tile size divided by 32 and truncated towards
    zero, the normaliser and [dims] are those the constructor chose, and
    temporal tiling is on only with a tile size above 1. *)
Theorem reachable_invariants (self : vae) :
  reachable_exact self ->
  tile_latent_min_size self = Z.quot (tile_sample_min_size self) 32
  /\ float_exact (tile_sample_min_size self)
  /\ (use_z_tiling self = true -> 1 < z_sample_size self)
  /\ (latent_norm_out self = BatchNorm2d -> dims self = 2)
  /\ (latent_norm_out self = BatchNorm3d -> dims self <> 2).
Proof.
  induction 1 as [d s n Hs | st s f Hs _ IH | st z _ IH | st _ IH | st _ IH | st _ IH];
    cbn [init set_tiling_params enable_z_tiling disable_z_tiling enable_hw_tiling
         disable_hw_tiling fst tile_latent_min_size tile_sample_min_size
         use_z_tiling z_sample_size latent_norm_out dims];
    try (destruct IH as (I1 & I0 & I2 & I3 & I4)).
  - split; [apply py_int_div_32 |]. split; [exact Hs |].
    split; [discriminate |].
    destruct n; [| split; discriminate].
    destruct (d =? 2) eqn:E; split; try discriminate; intros _.
    + apply Z.eqb_eq. exact E.
    + apply Z.eqb_neq. exact E.
  - split; [apply py_int_div_32 | auto].
  - split; [exact I1 |]. split; [exact I0 |]. split; [| auto].
    intros Hz. apply Z.gtb_lt in Hz. exact Hz.
  - split; [exact I1 |]. split; [exact I0 |]. split; [discriminate | auto].
  - auto.
  - auto.
Qed.

Lemma vae_z4_reachable_exact : reachable_exact vae_z4.
Proof.
  unfold vae_z4. apply reach_exact_enable_z, reach_exact_init.
  unfold float_exact. vm_compute. reflexivity.
Qed.

Lemma reachable_invariants_witness :
  reachable_exact vae_z4
  /\ tile_latent_min_size vae_z4 = Z.quot (tile_sample_min_size vae_z4) 32
  /\ (use_z_tiling vae_z4 = true -> 1 < z_sample_size vae_z4).
Proof.
  split; [exact vae_z4_reachable_exact |].
  pose proof (reachable_invariants vae_z4 vae_z4_reachable_exact) as (H1 & _ & H2 & _).
  exact (conj H1 H2).
Defined.

(** ** More on the blend operators *)

Section BlendFrame.

Context {elem scalar : Type}.
Variable ops : elem_ops elem scalar.

Lemma blend_step_frame (ax : axis) (a : tensor elem) (m : Z) (b r : tensor elem) (z : Z) :
  blend_step ops ax a m b z = inr r ->
  shape r = shape b /\ forall i, get ax i <> z -> data r i = data b i.
Proof.
  unfold blend_step.
  destruct (py_index (dim ax a) (- m + z)) as [err | k]; [discriminate |].
  destruct (py_index (dim ax b) z) as [err | k']; [discriminate |].
  cbn [rbind]. destruct (bcast_ok ax (shape a) (shape b)); [| discriminate].
  intros H. inversion H; subst; clear H. cbn [shape data].
  split; [reflexivity |]. intros i Hi.
  apply Z.eqb_neq in Hi. rewrite Hi. reflexivity.
Qed.

Lemma blend_loop_frame (ax : axis) (a : tensor elem) (m : Z) :
  forall (k s : nat) (b r : tensor elem),
    rfoldM (blend_step ops ax a m) (map Z.of_nat (seq s k)) b = inr r ->
    shape r = shape b
    /\ forall i, (get ax i < Z.of_nat s \/ Z.of_nat (s + k) <= get ax i) ->
                 data r i = data b i.
Proof.
  induction k as [| k IH]; intros s b r H.
  - cbn in H. inversion H. auto.
  - cbn [seq map rfoldM] in H.
    destruct (blend_step ops ax a m b (Z.of_nat s)) as [err | b1] eqn:E;
      [discriminate |].
    cbn [rbind] in H.
    destruct (blend_step_frame _ _ _ _ _ _ E) as [Hs1 Hd1].
    destruct (IH _ _ _ H) as [Hs2 Hd2].
    split; [congruence |].
    intros i Hi. rewrite Hd2 by lia. apply Hd1. lia.
Qed.

(** X4.  Whenever a blend operator returns, with or without broadcasting, the
    result has the shape of [b], and every element whose position on the
    blended axis is outside [[0, min(extent(a), extent(b), blend_extent))] is
    the element of [b]: only the leading slices are ever written. *)
Theorem blend_writes_leading_slices_only
    (op : tensor elem -> tensor elem -> Z -> result (tensor elem))
    (ax : axis) (a b r : tensor elem) (blend_extent : Z) :
  In (ax, op) [(Ax2, blend_z ops); (Ax3, blend_v ops); (Ax4, blend_h ops)] ->
  op a b blend_extent = inr r ->
  shape r = shape b
  /\ forall i,
       (get ax i < 0 \/ py_min3 (dim ax a) (dim ax b) blend_extent <= get ax i) ->
       data r i = data b i.
Proof.
  intros Hop Hr.
  assert (Hb : op = blend ops ax).
  { cbn in Hop. destruct Hop as [H | [H | [H | []]]]; inversion H; reflexivity. }
  subst op. unfold blend, py_range1 in Hr.
  destruct (blend_loop_frame ax a _ _ _ _ _ Hr) as [Hs Hd].
  split; [exact Hs |]. intros i Hi. apply Hd. lia.
Qed.

(** X5.  When at least one slice is to be blended and the two tensors are not
    broadcast-compatible on the other axes ([a]'s extent is neither [b]'s nor
    1 on one of them), the blend operator raises. *)
Theorem blend_incompatible_shapes_raise
    (op : tensor elem -> tensor elem -> Z -> result (tensor elem))
    (ax : axis) (a b : tensor elem) (blend_extent : Z) :
  In (ax, op) [(Ax2, blend_z ops); (Ax3, blend_v ops); (Ax4, blend_h ops)] ->
  0 < py_min3 (dim ax a) (dim ax b) blend_extent ->
  bcast_ok ax (shape a) (shape b) = false ->
  op a b blend_extent = inl RuntimeError.
Proof.
  intros Hop Hm Hbc.
  assert (Hb : op = blend ops ax).
  { cbn in Hop. destruct Hop as [H | [H | [H | []]]]; inversion H; reflexivity. }
  subst op. unfold blend, py_range1.
  set (m := py_min3 (dim ax a) (dim ax b) blend_extent) in *.
  destruct (Z.to_nat m) as [| n] eqn:En; [lia |].
  cbn [seq map rfoldM]. unfold blend_step, py_index.
  assert (Hma : m <= dim ax a) by (unfold m, py_min3; lia).
  assert (Hmb : m <= dim ax b) by (unfold m, py_min3; lia).
  change (Z.of_nat 0) with 0.
  replace (- m + 0 <? 0) with true by (symmetry; apply Z.ltb_lt; lia).
  replace (- m + 0 + dim ax a <? 0) with false by (symmetry; apply Z.ltb_ge; lia).
  replace (0 <? 0) with false by reflexivity.
  replace (0 <? dim ax b) with true by (symmetry; apply Z.ltb_lt; lia).
  cbn [rbind]. rewrite Hbc. reflexivity.
Qed.

End BlendFrame.

(** ** The cross-fade on rational elements *)

Lemma int_div_q_bounds (k m : Z) :
  0 <= k < m ->
  (0 <= int_div q_ops k m)%Q /\ (int_div q_ops k m <= 1)%Q.
Proof.
  intros Hk. cbn [int_div q_ops].
  destruct m as [| p | p]; try lia.
  unfold Qdiv, Qinv, Qmult, Qle, inject_Z. cbn. split; lia.
Qed.

Lemma q_convex (x y w : Q) :
  (0 <= w)%Q -> (w <= 1)%Q ->
  ((x <= y)%Q -> (x <= x * (1 - w) + y * w)%Q /\ (x * (1 - w) + y * w <= y)%Q)
  /\ ((y <= x)%Q -> (y <= x * (1 - w) + y * w)%Q /\ (x * (1 - w) + y * w <= x)%Q).
Proof.
  intros H0 H1.
  assert (E1 : (x * (1 - w) + y * w == x + (y - x) * w)%Q) by ring.
  assert (E2 : (x * (1 - w) + y * w == y - (y - x) * (1 - w))%Q) by ring.
  split; intros Hxy.
  - assert (Hp : (0 <= (y - x) * w)%Q) by (apply Qmult_le_0_compat; lra).
    assert (Hq : (0 <= (y - x) * (1 - w))%Q) by (apply Qmult_le_0_compat; lra).
    split; lra.
  - assert (Hp : (0 <= (x - y) * w)%Q) by (apply Qmult_le_0_compat; lra).
    assert (Hq : (0 <= (x - y) * (1 - w))%Q) by (apply Qmult_le_0_compat; lra).
    assert (E3 : ((x - y) * w == - ((y - x) * w))%Q) by ring.
    assert (E4 : ((x - y) * (1 - w) == - ((y - x) * (1 - w)))%Q) by ring.
    split; lra.
Qed.

(** X6.  With exact (rational) arithmetic, for tensors that agree on the
    other axes: slice 0 of the blend is the slice of [a] at
    [extent(a) - m], with [m] the clamped extent, and every blended element
    lies between the element of [a] it is faded from and the element of [b]
    it replaces. *)
Theorem blend_is_a_seamless_interpolation
    (op : tensor Q -> tensor Q -> Z -> result (tensor Q))
    (ax : axis) (a b : tensor Q) (blend_extent : Z) :
  In (ax, op) [(Ax2, blend_z q_ops); (Ax3, blend_v q_ops); (Ax4, blend_h q_ops)] ->
  (forall x, x <> ax -> dim x a = dim x b) ->
  let m := py_min3 (dim ax a) (dim ax b) blend_extent in
  exists r,
    op a b blend_extent = inr r
    /\ forall i, in_range (shape b) i -> get ax i < m ->
         let va := data a (set ax (dim ax a - m + get ax i) i) in
         let vb := data b i in
         (get ax i = 0 -> (data r i == va)%Q)
         /\ ((va <= vb)%Q -> (va <= data r i)%Q /\ (data r i <= vb)%Q)
         /\ ((vb <= va)%Q -> (vb <= data r i)%Q /\ (data r i <= va)%Q).
Proof.
  intros Hop Hd m.
  assert (Hb : op = blend q_ops ax).
  { cbn in Hop. destruct Hop as [H | [H | [H | []]]]; inversion H; reflexivity. }
  subst op.
  destruct (blend_spec q_ops ax a b blend_extent Hd) as (r & Hr & _ & Hdat).
  exists r. split; [exact Hr |].
  intros i Hi Hk va vb. rewrite (Hdat i Hi). fold m.
  replace (get ax i <? m) with true by (symmetry; apply Z.ltb_lt; lia).
  unfold crossfade. fold va. fold vb.
  change (add q_ops ?x ?y) with (x + y)%Q.
  change (scale q_ops ?x ?y) with (x * y)%Q.
  change (one_minus q_ops ?x) with (1 - x)%Q.
  assert (Hrange : 0 <= get ax i < m) by (specialize (Hi ax); lia).
  destruct (int_div_q_bounds _ _ Hrange) as [W0 W1].
  split.
  - intros H0. rewrite H0. cbn [int_div q_ops].
    destruct m as [| p | p]; try lia.
    unfold Qdiv, Qinv, Qmult, Qplus, Qminus, Qopp, Qeq, inject_Z. cbn. lia.
  - apply q_convex; assumption.
Qed.

Lemma blend_is_a_seamless_interpolation_witness :
  In (Ax2, blend_z q_ops)
     [(Ax2, blend_z q_ops); (Ax3, blend_v q_ops); (Ax4, blend_h q_ops)]
  /\ (forall x, x <> Ax2 -> dim x five_frames = dim x two_frames)
  /\ exists r, blend_z q_ops five_frames two_frames 4 = inr r.
Proof.
  assert (H1 : In (Ax2, blend_z q_ops)
                  [(Ax2, blend_z q_ops); (Ax3, blend_v q_ops); (Ax4, blend_h q_ops)])
    by (left; reflexivity).
  assert (H2 : forall x, x <> Ax2 -> dim x five_frames = dim x two_frames)
    by (intros x Hx; destruct x; try reflexivity; congruence).
  split; [exact H1 |]. split; [exact H2 |].
  destruct (blend_is_a_seamless_interpolation (blend_z q_ops) Ax2
              five_frames two_frames 4 H1 H2) as (r & Hr & _).
  exists r. exact Hr.
Defined.

Lemma blend_writes_leading_slices_only_witness :
  In (Ax2, blend_z q_ops)
     [(Ax2, blend_z q_ops); (Ax3, blend_v q_ops); (Ax4, blend_h q_ops)]
  /\ exists r,
       blend_z q_ops five_frames two_frames 4 = inr r
       /\ shape r = shape two_frames
       /\ forall i,
            (get Ax2 i < 0
             \/ py_min3 (dim Ax2 five_frames) (dim Ax2 two_frames) 4 <= get Ax2 i) ->
            data r i = data two_frames i.
Proof.
  assert (H1 : In (Ax2, blend_z q_ops)
                  [(Ax2, blend_z q_ops); (Ax3, blend_v q_ops); (Ax4, blend_h q_ops)])
    by (left; reflexivity).
  split; [exact H1 |].
  destruct (blend_spec q_ops Ax2 five_frames two_frames 4) as (r & Hr & _).
  { intros x Hx; destruct x; try reflexivity; congruence. }
  exists r. split; [exact Hr |].
  exact (blend_writes_leading_slices_only q_ops (blend_z q_ops) Ax2
           five_frames two_frames r 4 H1 Hr).
Defined.

Lemma blend_incompatible_shapes_raise_witness :
  In (Ax2, blend_z q_ops)
     [(Ax2, blend_z q_ops); (Ax3, blend_v q_ops); (Ax4, blend_h q_ops)]
  /\ 0 < py_min3 (dim Ax2 low_frames) (dim Ax2 tall_frames) 4
  /\ bcast_ok Ax2 (shape low_frames) (shape tall_frames) = false
  /\ blend_z q_ops low_frames tall_frames 4 = inl RuntimeError.
Proof.
  assert (H1 : In (Ax2, blend_z q_ops)
                  [(Ax2, blend_z q_ops); (Ax3, blend_v q_ops); (Ax4, blend_h q_ops)])
    by (left; reflexivity).
  assert (H2 : 0 < py_min3 (dim Ax2 low_frames) (dim Ax2 tall_frames) 4)
    by (vm_compute; reflexivity).
  assert (H3 : bcast_ok Ax2 (shape low_frames) (shape tall_frames) = false)
    by reflexivity.
  exact (conj H1 (conj H2 (conj H3
           (blend_incompatible_shapes_raise q_ops (blend_z q_ops) Ax2
              low_frames tall_frames 4 H1 H2 H3)))).
Defined.

(** ** Latent-channel normalisation *)

Section Normalisation.

Context {elem : Type}.
Variable net : codec elem.

Lemma set_set_same (ax : axis) (v w : Z) (i : idx) : set ax v (set ax w i) = set ax v i.
Proof. destruct ax; reflexivity. Qed.

Lemma get_set_other (x ax : axis) (v : Z) (i : idx) :
  x <> ax -> get x (set ax v i) = get x i.
Proof. destruct x, ax; intros H; try reflexivity; congruence. Qed.

Lemma same_other_dims_set (ax : axis) (v w : Z) (sh : idx) :
  same_other_dims ax (set ax v sh) (set ax w sh) = true.
Proof.
  assert (Hx : forall x, axis_eqb x ax
                         || (get x (set ax v sh) =? get x (set ax w sh)) = true).
  { intros x. destruct (axis_eqb x ax) eqn:E; [reflexivity |].
    pose proof (axis_eqb_false _ _ E) as Hne.
    rewrite !get_set_other by exact Hne. rewrite Z.eqb_refl. reflexivity. }
  unfold same_other_dims, all_axes. cbn [forallb]. rewrite !Hx. reflexivity.
Qed.

(** X7.  With a [BatchNorm3d] normaliser that keeps the shape of its input,
    [_normalize_latent_channels] calls the normaliser once, on the first
    [c // 2] channels; the result has the shape of [z], its first [c // 2]
    channels are the normaliser's output and its other channels are those of
    [z], untouched. *)
Theorem normalize_touches_first_half_only
    (self : vae) (z n : tensor elem) (tr : list (event elem)) :
  latent_norm_out self = BatchNorm3d ->
  0 <= dim Ax1 z ->
  let c := dim Ax1 z in
  let half := tslice Ax1 None (Some (c / 2)) z in
  batch_norm3d net half = inr n ->
  shape n = shape half ->
  exists r,
    _normalize_latent_channels net self z tr = (inr r, tr ++ [EvLatentNorm half])
    /\ shape r = shape z
    /\ forall i, (get Ax1 i < c / 2 -> data r i = data n i)
                 /\ (c / 2 <= get Ax1 i -> data r i = data z i).
Proof.
  intros Hbn Hc c half Hn Hsh.
  assert (Hhalf : 0 <= c / 2 <= c).
  { split; [apply Z.div_pos; lia |]. apply Z.div_le_upper_bound; lia. }
  assert (Hshape_half : shape half = set Ax1 (c / 2) (shape z)).
  { unfold half, tslice. cbn [shape slice_bound]. fold c.
    replace (c / 2 <? 0) with false by (symmetry; apply Z.ltb_ge; lia).
    f_equal. lia. }
  set (rest := tslice Ax1 (Some (c / 2)) None z).
  assert (Hshape_rest : shape rest = set Ax1 (c - c / 2) (shape z)).
  { unfold rest, tslice. cbn [shape slice_bound]. fold c.
    replace (c / 2 <? 0) with false by (symmetry; apply Z.ltb_ge; lia).
    f_equal. lia. }
  unfold _normalize_latent_channels. rewrite Hbn. cbn [isinstance_BatchNorm3d].
  fold c. fold half. fold rest.
  unfold bind, call_latent_norm, bind, emit, lift. rewrite Hn.
  unfold cat. cbn [forallb].
  rewrite Hsh, Hshape_half, Hshape_rest, same_other_dims_set. cbn [andb].
  eexists. split; [reflexivity |]. cbn [shape data].
  split.
  - unfold sum_dims. cbn [foldr]. unfold dim.
    rewrite Hsh, Hshape_half, Hshape_rest, !get_set_same, set_set_same.
    replace (c / 2 + (c - c / 2 + 0)) with (get Ax1 (shape z)) by (unfold c, dim; lia).
    apply set_get_same.
  - assert (Hdn : dim Ax1 n = c / 2)
      by (unfold dim; rewrite Hsh, Hshape_half; apply get_set_same).
    intros i. cbn [cat_data]. rewrite !Hdn.
    split; intros Hi.
    + replace (get Ax1 i <? c / 2) with true by (symmetry; apply Z.ltb_lt; lia).
      reflexivity.
    + replace (get Ax1 i <? c / 2) with false by (symmetry; apply Z.ltb_ge; lia).
      unfold rest, tslice. cbn [data slice_bound]. fold c.
      replace (c / 2 <? 0) with false by (symmetry; apply Z.ltb_ge; lia).
      rewrite get_set_same, set_set_same.
      replace (get Ax1 i - c / 2 + Z.min (c / 2) c) with (get Ax1 i) by lia.
      rewrite set_get_same. reflexivity.
Qed.

End Normalisation.

Lemma normalize_touches_first_half_only_witness :
  latent_norm_out vae_bn3d = BatchNorm3d
  /\ 0 <= dim Ax1 six_channels
  /\ exists r,
       _normalize_latent_channels id_codec vae_bn3d six_channels []
       = (inr r, [] ++ [EvLatentNorm (tslice Ax1 None (Some (6 / 2)) six_channels)])
       /\ shape r = shape six_channels.
Proof.
  split; [reflexivity |]. split; [vm_compute; congruence |].
  destruct (normalize_touches_first_half_only id_codec vae_bn3d six_channels
              (tslice Ax1 None (Some (6 / 2)) six_channels) []
              eq_refl ltac:(vm_compute; congruence) eq_refl eq_refl)
    as (r & Hr & Hs & _).
  exists r. split; [exact Hr | exact Hs].
Defined.

(** ** The temporally tiled decode *)

Section TemporalDecode.

Context {elem scalar : Type}.
Variable ops : elem_ops elem scalar.
Variable net : codec elem.

Lemma py_range_origins_pos (T stride : Z) :
  0 < stride -> py_range T stride = inr (origins T stride).
Proof.
  intros Hs. destruct (Z.lt_ge_cases 0 T) as [HT | HT].
  - apply py_range_origins; assumption.
  - unfold py_range, origins, py_range_len.
    replace (stride =? 0) with false by (symmetry; apply Z.eqb_neq; lia).
    replace (0 <? stride) with true by (symmetry; apply Z.ltb_lt; lia).
    replace (0 <? T) with false by (symmetry; apply Z.ltb_ge; lia).
    assert (H : (T + stride - 1) / stride <= 0).
    { apply Z.lt_succ_r. apply Z.div_lt_upper_bound; lia. }
    replace (Z.to_nat ((T + stride - 1) / stride)) with O by lia.
    reflexivity.
Qed.

Lemma origins_cons (T stride : Z) :
  0 < T -> 0 < stride -> exists rest, origins T stride = 0 :: rest.
Proof.
  intros HT Hs. unfold origins.
  assert (H : 1 <= (T + stride - 1) / stride).
  { apply Z.div_le_lower_bound; lia. }
  destruct (Z.to_nat ((T + stride - 1) / stride)) as [| n] eqn:E; [lia |].
  cbn [seq map]. eexists. reflexivity.
Qed.

Lemma temporal_decode_geometry (zs : Z) :
  0 <= zs ->
  py_int (inject_Z zs * (1 - (1 # 4))) = zs * 3 / 4
  /\ py_int (inject_Z (zs * 8) * (1 # 4)) = zs * 2.
Proof.
  intros Hz. unfold py_int. cbn.
  change (1 * 4 + - (1) * 1) with 3. change (Z.pos (1 * (1 * 4))) with 4.
  change (Z.pos (1 * 4)) with 4. rewrite Z.mul_1_r.
  split; [apply Z.quot_div_nonneg; lia |].
  replace (zs * 8) with (zs * 2 * 4) by lia. apply Z.quot_mul. discriminate.
Qed.

Lemma z_tiling_engaged_bounds (self : vae) (z : tensor elem) :
  z_tiling_engaged self z = true ->
  0 < z_sample_size self /\ z_sample_size self + 1 < dim Ax2 z.
Proof.
  unfold z_tiling_engaged. intros Heng.
  apply andb_prop in Heng. destruct Heng as [_ Heng].
  apply andb_prop in Heng. destruct Heng as [H1 H2].
  apply Z.gtb_lt in H1, H2. lia.
Qed.

(** X8.  When the temporally tiled branch of [decode] is taken with a tile
    size above 1 and a target shape of at least three entries: the windows
    are [z[:, :, i : i + z_sample_size + 1]] at the origins
    [0, stride, 2 * stride, ...] with [stride = floor(z_sample_size * 3 / 4)];
    each window is decoded with the caller's target shape by the spatial
    controller or the transform adapter, loses its leading frame unless it is
    the first, and is narrowed to float16; the first segment is cropped to
    [6 * z_sample_size + 1] frames, each later one is blended over
    [2 * z_sample_size] frames against its predecessor and cropped to
    [6 * z_sample_size] frames; the sample is their concatenation along
    time. *)
Theorem decode_temporal_tiling (self : vae) (z : tensor elem) (return_dict : bool)
    (target_shape : list Z) (timestep : option (tensor elem)) :
  z_tiling_engaged self z = true ->
  1 < z_sample_size self ->
  (2 < length target_shape)%nat ->
  let T := dim Ax2 z in
  let stride := z_sample_size self * 3 / 4 in
  let blendExtent := z_sample_size self * 2 in
  let timeLimit := z_sample_size self * 8 - blendExtent in
  let window i := tslice Ax2 (Some i) (Some (i + z_sample_size self + 1)) z in
  (forall i, In i (origins T stride) ->
             dim Ax2 (window i) = Z.min (z_sample_size self + 1) (T - i))
  /\ forall tr,
       decode ops net self z return_dict (Some target_shape) timestep tr
       = (let* segments :=
            mapM (fun i =>
                    let* d := decode_window ops net self target_shape timestep
                                (window i) in
                    ret (to_float16_cpu ops
                           (if i >? 0 then tslice Ax2 (Some 1) None d else d)))
                 (origins T stride) in
          let* dec := lift (compose_temporal ops blendExtent timeLimit segments) in
          if negb return_dict then ret (SampleTuple dec)
          else ret (DecoderOutput dec)) tr.
Proof.
  intros Heng Hzs Hlen T stride blendExtent timeLimit window.
  destruct (z_tiling_engaged_bounds self z Heng) as [_ HT]. fold T in HT.
  assert (Hstride : 0 < stride).
  { unfold stride. apply Z.lt_le_trans with 1; [lia |].
    apply Z.div_le_lower_bound; lia. }
  split.
  - intros i Hi.
    pose proof (origins_bounds T stride i ltac:(lia) Hstride Hi) as Hb.
    unfold window.
    replace (i + z_sample_size self + 1) with (i + (z_sample_size self + 1)) by lia.
    apply dim_tslice_window; [exact Hb | lia].
  - intros tr. unfold decode. rewrite Heng. unfold decode_z_tiled.
    destruct (temporal_decode_geometry (z_sample_size self) ltac:(lia)) as [G1 G2].
    rewrite G1, G2.
    fold T. fold stride. fold blendExtent. fold timeLimit.
    rewrite (py_range_origins T stride ltac:(lia) Hstride).
    unfold decode_segment, target_shape_split.
    apply Nat.ltb_lt in Hlen. rewrite Hlen.
    change (mapM (fun i : Z => _))
      with (mapM (fun i =>
                    let* d := decode_window ops net self target_shape timestep
                                (window i) in
                    ret (to_float16_cpu ops
                           (if i >? 0 then tslice Ax2 (Some 1) None d else d)))).
    unfold bind, lift.
    destruct (mapM _ (origins T stride) tr) as [[err | segments] tr1]; [reflexivity |].
    rewrite blend_segments_spec. reflexivity.
Qed.

(** X9.  On the temporally tiled branch (tile size above 1), a target shape
    of fewer than three entries makes [decode] raise [IndexError] on the
    first segment, before any transform is called: the trace is unchanged. *)
Theorem decode_temporal_short_target_shape (self : vae) (z : tensor elem)
    (return_dict : bool) (target_shape : list Z) (timestep : option (tensor elem))
    (tr : list (event elem)) :
  z_tiling_engaged self z = true ->
  1 < z_sample_size self ->
  (length target_shape <= 2)%nat ->
  decode ops net self z return_dict (Some target_shape) timestep tr
  = (inl IndexError, tr).
Proof.
  intros Heng Hzs Hlen.
  destruct (z_tiling_engaged_bounds self z Heng) as [_ HT].
  unfold decode. rewrite Heng. unfold decode_z_tiled.
  destruct (temporal_decode_geometry (z_sample_size self) ltac:(lia)) as [G1 G2].
  rewrite G1, G2.
  assert (Hstride : 0 < z_sample_size self * 3 / 4).
  { apply Z.lt_le_trans with 1; [lia |]. apply Z.div_le_lower_bound; lia. }
  assert (HT0 : 0 < dim Ax2 z) by lia.
  rewrite (py_range_origins _ _ HT0 Hstride).
  destruct (origins_cons _ _ HT0 Hstride) as [rest Ho].
  rewrite Ho. unfold bind at 1 2. unfold lift at 1. cbn [mapM].
  unfold bind at 1. unfold decode_segment at 1. unfold bind at 1.
  unfold target_shape_split, lift at 1.
  replace (2 <? length target_shape)%nat with false
    by (symmetry; apply Nat.ltb_ge; lia).
  reflexivity.
Qed.

(** X10.  [_hw_tiled_encode] and [_hw_tiled_decode] raise [ValueError] right
    after being entered, before any tile is transformed, when the stride
    derived from the tile size and the overlap factor truncates to 0; with the
    overlap factor 0.25 that is the case for the decode of every sample size
    from 0 to 63, and for the encode of the sample sizes 0 and 1. *)
Theorem hw_tiling_zero_stride_raises (self : vae) (sample_size : Z)
    (x : tensor elem) (return_dict : bool) (target_shape : list Z)
    (timestep : option (tensor elem)) (tr : list (event elem)) :
  0 <= sample_size < 64 ->
  let self' := set_tiling_params self sample_size (1 # 4) in
  _hw_tiled_decode ops net self' x target_shape timestep tr
  = (inl ValueError, tr ++ [Ev_hw_tiled_decode x target_shape timestep])
  /\ (sample_size < 2 ->
      _hw_tiled_encode ops net self' x return_dict tr
      = (inl ValueError, tr ++ [Ev_hw_tiled_encode x])).
Proof.
  intros Hs self'.
  assert (Hl : tile_latent_min_size self' = 0 \/ tile_latent_min_size self' = 1).
  { unfold self', set_tiling_params. cbn [tile_latent_min_size].
    rewrite py_int_div_32. rewrite Z.quot_div_nonneg by lia.
    assert (sample_size / 32 < 2) by (apply Z.div_lt_upper_bound; lia).
    pose proof (Z.div_pos sample_size 32 ltac:(lia) ltac:(lia)). lia. }
  assert (Hf : tile_overlap_factor self' = (1 # 4)%Q) by reflexivity.
  assert (Hss : tile_sample_min_size self' = sample_size) by reflexivity.
  split.
  - unfold _hw_tiled_decode. rewrite Hf.
    destruct (temporal_decode_geometry (tile_latent_min_size self') ltac:(lia)) as [G _].
    rewrite G.
    replace (tile_latent_min_size self' * 3 / 4) with 0
      by (destruct Hl as [-> | ->]; reflexivity).
    unfold bind, emit, tile_grid, bind, lift, py_range. cbn [Z.eqb]. reflexivity.
  - intros Hs2. unfold _hw_tiled_encode. rewrite Hf, Hss.
    destruct (temporal_decode_geometry sample_size ltac:(lia)) as [G _].
    rewrite G.
    replace (sample_size * 3 / 4) with 0
      by (assert (sample_size = 0 \/ sample_size = 1) as [-> | ->] by lia; reflexivity).
    unfold bind, emit, tile_grid, bind, lift, py_range. cbn [Z.eqb]. reflexivity.
Qed.

End TemporalDecode.

Lemma vae_z2_reachable : reachable vae_z2.
Proof. unfold vae_z2. apply reach_enable_z, reach_init. Qed.

Lemma decode_temporal_tiling_witness :
  z_tiling_engaged vae_z4 seven_frames = true
  /\ 1 < z_sample_size vae_z4
  /\ (2 < length seven_frames_target)%nat
  /\ forall i, In i (origins 7 3) ->
        dim Ax2 (tslice Ax2 (Some i) (Some (i + 4 + 1)) seven_frames)
        = Z.min (4 + 1) (7 - i).
Proof.
  assert (H1 : z_tiling_engaged vae_z4 seven_frames = true) by reflexivity.
  assert (H2 : 1 < z_sample_size vae_z4) by reflexivity.
  assert (H3 : (2 < length seven_frames_target)%nat) by (cbn; lia).
  split; [exact H1 |]. split; [exact H2 |]. split; [exact H3 |].
  exact (proj1 (decode_temporal_tiling q_ops id_codec vae_z4 seven_frames true
                  seven_frames_target None H1 H2 H3)).
Defined.

Lemma decode_temporal_short_target_shape_witness :
  z_tiling_engaged vae_z2 seven_frames = true
  /\ 1 < z_sample_size vae_z2
  /\ (length [1; 1] <= 2)%nat
  /\ decode q_ops id_codec vae_z2 seven_frames true (Some [1; 1]) None []
     = (inl IndexError, []).
Proof.
  assert (H1 : z_tiling_engaged vae_z2 seven_frames = true) by reflexivity.
  assert (H2 : 1 < z_sample_size vae_z2) by reflexivity.
  assert (H3 : (length [1; 1] <= 2)%nat) by (cbn; lia).
  exact (conj H1 (conj H2 (conj H3
           (decode_temporal_short_target_shape q_ops id_codec vae_z2 seven_frames
              true [1; 1] None [] H1 H2 H3)))).
Defined.

Lemma hw_tiling_zero_stride_raises_witness :
  0 <= 48 < 64
  /\ _hw_tiled_decode q_ops id_codec (set_tiling_params vae_hw 48 (1 # 4))
       single_frame [1; 1; 1; 4; 4] None []
     = (inl ValueError, [] ++ [Ev_hw_tiled_decode single_frame [1; 1; 1; 4; 4] None]).
Proof.
  assert (H : 0 <= 48 < 64) by lia.
  split; [exact H |].
  exact (proj1 (hw_tiling_zero_stride_raises q_ops id_codec vae_hw 48 single_frame
                  true [1; 1; 1; 4; 4] None [] H)).
Defined.

(** ** What the call traces contain *)

Section Traces.

Context {E : Type}.
Variable P : E -> Prop.

Lemma emits_ret {A} (a : A) : emits P (ret a).
Proof. intros tr. exists []. rewrite app_nil_r. split; [reflexivity | constructor]. Qed.

Lemma emits_raise {A} (e : exn) : emits P (@raise E A e).
Proof. intros tr. exists []. rewrite app_nil_r. split; [reflexivity | constructor]. Qed.

Lemma emits_lift {A} (r : result A) : emits P (lift r).
Proof. intros tr. exists []. rewrite app_nil_r. split; [reflexivity | constructor]. Qed.

Lemma emits_emit (ev : E) : P ev -> emits P (emit ev).
Proof. intros H tr. exists [ev]. split; [reflexivity | repeat constructor; exact H]. Qed.

Lemma emits_bind {A B} (c : Trace.M E A) (k : A -> Trace.M E B) :
  emits P c -> (forall a, emits P (k a)) -> emits P (bind c k).
Proof.
  intros Hc Hk tr. destruct (Hc tr) as (n1 & E1 & F1). unfold bind.
  destruct (c tr) as [[e | a] tr1]; cbn [snd] in *; subst tr1.
  - exists n1. split; [reflexivity | exact F1].
  - destruct (Hk a (tr ++ n1)) as (n2 & E2 & F2).
    exists (n1 ++ n2). rewrite E2, app_assoc.
    split; [reflexivity | apply Forall_app; split; assumption].
Qed.

Lemma emits_mapM {A B} (f : A -> Trace.M E B) (l : list A) :
  (forall x, emits P (f x)) -> emits P (mapM f l).
Proof.
  intros Hf. induction l as [| x l IH]; cbn [mapM].
  - apply emits_ret.
  - apply emits_bind; [apply Hf |]. intros y.
    apply emits_bind; [exact IH |]. intros ys. apply emits_ret.
Qed.

Lemma emits_if {A} (b : bool) (c1 c2 : Trace.M E A) :
  emits P c1 -> emits P c2 -> emits P (if b then c1 else c2).
Proof. destruct b; auto. Qed.

(** What a successful [mapM] adds to a projection of the trace. *)
Lemma mapM_projection {A B C} (proj : list E -> list C) (g : A -> list C)
    (f : A -> Trace.M E B) :
  (forall x tr y tr', f x tr = (inr y, tr') -> proj tr' = proj tr ++ g x) ->
  forall (l : list A) tr ys tr',
    mapM f l tr = (inr ys, tr') -> proj tr' = proj tr ++ flat_map g l.
Proof.
  intros Hf. induction l as [| x l IH]; intros tr ys tr' H; cbn [mapM] in H.
  - inversion H. cbn. rewrite app_nil_r. reflexivity.
  - unfold bind in H.
    destruct (f x tr) as [[e | y] tr1] eqn:E1; [discriminate |].
    destruct (mapM f l tr1) as [[e | ys'] tr2] eqn:E2; [discriminate |].
    inversion H; subst. cbn [flat_map].
    rewrite (IH _ _ _ E2), (Hf _ _ _ _ E1), app_assoc. reflexivity.
Qed.

End Traces.

Section TraceFacts.

Context {elem scalar : Type}.
Variable ops : elem_ops elem scalar.
Variable net : codec elem.

Lemma emits_tile_grid (P : event elem -> Prop) (x : tensor elem) (overlap_size : Z)
    (f : Z -> Z -> Trace.M (event elem) (tensor elem)) :
  (forall i j, emits P (f i j)) -> emits P (tile_grid x overlap_size f).
Proof.
  intros Hf. unfold tile_grid.
  apply emits_bind; [apply emits_lift |]. intros origins.
  apply emits_mapM. intros i.
  apply emits_bind; [apply emits_lift |]. intros js.
  apply emits_mapM. intros j. apply Hf.
Qed.

Lemma emits_hw_tiled_decode (self : vae) (ts : list Z) (z : tensor elem)
    (timestep : option (tensor elem)) :
  emits (decode_event self ts) (_hw_tiled_decode ops net self z ts timestep).
Proof.
  unfold _hw_tiled_decode.
  apply emits_bind; [apply emits_emit; reflexivity |]. intros _.
  apply emits_bind; [| intros rows; apply emits_lift].
  apply emits_tile_grid. intros i j. unfold hw_decode_tile.
  apply emits_bind.
  - unfold call_post_quant_conv.
    apply emits_bind; [apply emits_emit; exact I | intros _; apply emits_lift].
  - intros tile. unfold call_decoder.
    apply emits_bind; [apply emits_emit; right; reflexivity | intros _; apply emits_lift].
Qed.

Lemma emits_decode_adapter (self : vae) (ts : list Z) (z : tensor elem)
    (timestep : option (tensor elem)) :
  emits (decode_event self ts) (_decode net self z ts timestep).
Proof.
  unfold _decode.
  apply emits_bind; [apply emits_emit; reflexivity |]. intros _.
  apply emits_bind.
  - unfold _unnormalize_latent_channels.
    repeat apply emits_if; try apply emits_ret; apply emits_raise.
  - intros z'. apply emits_bind.
    + unfold call_post_quant_conv.
      apply emits_bind; [apply emits_emit; exact I | intros _; apply emits_lift].
    + intros z''. apply emits_if; unfold call_decoder;
        (apply emits_bind; [apply emits_emit; left; reflexivity
                           | intros _; apply emits_lift]).
Qed.

(** X11.  Whatever the configuration, the volume and the outcome, [decode]
    only appends to the call trace, and what it appends is: entries into
    [_hw_tiled_decode] and [_decode] that all carry the caller's target
    shape, calls of the post-quantisation convolution, and calls of the
    decoder with the caller's target shape or with the tile shape made of its
    first three entries and the sample tile size.  It never calls the encoder,
    the quantisation convolution or the latent normaliser. *)
Theorem decode_trace_carries_caller_target_shape
    (self : vae) (z : tensor elem) (return_dict : bool) (target_shape : list Z)
    (timestep : option (tensor elem)) :
  emits (decode_event self target_shape)
        (decode ops net self z return_dict (Some target_shape) timestep).
Proof.
  unfold decode. apply emits_bind.
  - apply emits_if.
    + unfold decode_z_tiled.
      apply emits_bind; [apply emits_lift |]. intros origins.
      apply emits_bind; [| intros row; apply emits_lift].
      apply emits_mapM. intros i. unfold decode_segment.
      apply emits_bind; [apply emits_lift |]. intros _.
      apply emits_bind; [| intros d; apply emits_ret].
      apply emits_if; [apply emits_hw_tiled_decode | apply emits_decode_adapter].
    + unfold decode_untiled_z.
      apply emits_if; [apply emits_hw_tiled_decode | apply emits_decode_adapter].
  - intros dec. apply emits_if; apply emits_ret.
Qed.

Lemma emits_hw_tiled_encode (self : vae) (x : tensor elem) (return_dict : bool) :
  emits not_latent_norm (_hw_tiled_encode ops net self x return_dict).
Proof.
  unfold _hw_tiled_encode.
  apply emits_bind; [apply emits_emit; exact I |]. intros _.
  apply emits_bind; [| intros rows; apply emits_lift].
  apply emits_tile_grid. intros i j. unfold hw_encode_tile.
  apply emits_bind.
  - unfold call_encoder.
    apply emits_bind; [apply emits_emit; exact I | intros _; apply emits_lift].
  - intros tile. unfold call_quant_conv.
    apply emits_bind; [apply emits_emit; exact I | intros _; apply emits_lift].
Qed.

Lemma latent_norm_inputs_app (tr new : list (event elem)) :
  Forall not_latent_norm new ->
  latent_norm_inputs (tr ++ new) = latent_norm_inputs tr.
Proof.
  intros H. unfold latent_norm_inputs. rewrite omap_app.
  replace (omap _ new) with (@nil (tensor elem)); [apply app_nil_r |].
  induction H as [| ev new Hev _ IH]; [reflexivity |].
  destruct ev; cbn in *; try exact IH. contradiction.
Qed.

Lemma hw_encode_tile_inputs (self : vae) (x : tensor elem) (i j : Z) tr y tr' :
  hw_encode_tile net self x i j tr = (inr y, tr') ->
  encoder_inputs tr'
  = encoder_inputs tr ++ [hw_tile (tile_sample_min_size self) i j x].
Proof.
  unfold hw_encode_tile, call_encoder, call_quant_conv, bind, emit, lift.
  destruct (encoder net _) as [e | h]; [discriminate |].
  destruct (quant_conv net h) as [e | m]; [discriminate |].
  intros H. inversion H; subst. unfold encoder_inputs.
  rewrite !omap_app. cbn. rewrite app_nil_r. reflexivity.
Qed.

(** What a successful [_hw_tiled_encode] with a positive stride hands to the
    encoder. *)
Lemma hw_tiled_encode_inputs (self : vae) (x : tensor elem) (return_dict : bool)
    (tr : list (event elem)) :
  let stride :=
    py_int (inject_Z (tile_sample_min_size self) * (1 - tile_overlap_factor self)) in
  let run := _hw_tiled_encode ops net self x return_dict tr in
  0 < stride ->
  (exists moments, fst run = inr moments) ->
  encoder_inputs (snd run)
  = encoder_inputs tr
    ++ flat_map (fun i =>
                   map (fun j => hw_tile (tile_sample_min_size self) i j x)
                       (origins (dim Ax4 x) stride))
                (origins (dim Ax3 x) stride).
Proof.
  intros stride run Hstride [moments Hm]. unfold run in *. clear run.
  unfold _hw_tiled_encode in *. fold stride in Hm. fold stride.
  unfold bind at 1 in Hm. unfold bind at 1. unfold emit in *.
  unfold bind at 1 in Hm. unfold bind at 1.
  destruct (tile_grid x stride (hw_encode_tile net self x)
              (tr ++ [Ev_hw_tiled_encode x])) as [[e | rows] tr1] eqn:Eg;
    [discriminate |].
  unfold lift. cbn [snd].
  unfold tile_grid in Eg.
  rewrite !(py_range_origins_pos _ _ Hstride) in Eg.
  unfold bind at 1 in Eg. unfold lift at 1 in Eg.
  assert (Hrowp : forall i tr0 row tr0',
             (let* js := lift (inr (origins (dim Ax4 x) stride)) in
              mapM (hw_encode_tile net self x i) js) tr0 = (inr row, tr0') ->
             encoder_inputs tr0'
             = encoder_inputs tr0
               ++ map (fun j => hw_tile (tile_sample_min_size self) i j x)
                      (origins (dim Ax4 x) stride)).
  { intros i tr0 row tr0' Hrow. unfold bind, lift in Hrow.
    rewrite (mapM_projection encoder_inputs
               (fun j => [hw_tile (tile_sample_min_size self) i j x])
               (hw_encode_tile net self x i)
               (fun j t y t' => hw_encode_tile_inputs self x i j t y t')
               _ _ _ _ Hrow).
    f_equal.
    all: clear; induction (origins (dim Ax4 x) stride) as [| j l IH];
      [reflexivity | cbn; f_equal; exact IH]. }
  rewrite (mapM_projection encoder_inputs _ _ Hrowp _ _ _ _ Eg).
  f_equal. unfold encoder_inputs. rewrite omap_app. cbn.
  apply app_nil_r.
Qed.

(** X12.  [_hw_tiled_encode] never calls the latent normaliser, whatever the
    configured normaliser and the outcome.  At an overlap factor of 0 or 0.25
    and tile sizes below [2 ^ 50] (where the float products of the geometry
    are exact), when its stride is positive and it returns normally, the
    encoder has been called exactly once per grid cell, in raster order, on
    the tiles
    [x[:, :, :, i : i + tile_sample_min_size, j : j + tile_sample_min_size]]
    for [i] and [j] stepping by the stride below the height and the width. *)
Theorem hw_tiled_encode_calls (self : vae) (x : tensor elem) (return_dict : bool)
    (tr : list (event elem)) :
  let stride :=
    py_int (inject_Z (tile_sample_min_size self) * (1 - tile_overlap_factor self)) in
  let run := _hw_tiled_encode ops net self x return_dict tr in
  latent_norm_inputs (snd run) = latent_norm_inputs tr
  /\ (exact_hw_geometry self ->
      0 < stride ->
      (exists moments, fst run = inr moments) ->
      encoder_inputs (snd run)
      = encoder_inputs tr
        ++ flat_map (fun i =>
                       map (fun j => hw_tile (tile_sample_min_size self) i j x)
                           (origins (dim Ax4 x) stride))
                    (origins (dim Ax3 x) stride)).
Proof.
  intros stride run. split.
  - destruct (emits_hw_tiled_encode self x return_dict tr) as (new & E1 & F1).
    unfold run. rewrite E1. apply latent_norm_inputs_app. exact F1.
  - intros _. apply hw_tiled_encode_inputs.
Qed.

(** X13.  At an overlap factor of 0 or 0.25 and tile sizes below [2 ^ 50]
    (where the float products of the geometry are exact), with a positive
    stride and a non-empty volume: if the encoder raises on the first tile,
    [_hw_tiled_encode] raises the same exception at once; the trace ends with
    that single encoder call, and nothing is blended or returned. *)
Theorem hw_tiled_encode_propagates_failure (self : vae) (x : tensor elem)
    (return_dict : bool) (e : exn) (tr : list (event elem)) :
  let stride :=
    py_int (inject_Z (tile_sample_min_size self) * (1 - tile_overlap_factor self)) in
  let first_tile := hw_tile (tile_sample_min_size self) 0 0 x in
  exact_hw_geometry self ->
  0 < stride -> 0 < dim Ax3 x -> 0 < dim Ax4 x ->
  encoder net first_tile = inl e ->
  _hw_tiled_encode ops net self x return_dict tr
  = (inl e, tr ++ [Ev_hw_tiled_encode x] ++ [EvEncoder first_tile]).
Proof.
  intros stride first_tile _ Hs HH HW He.
  unfold _hw_tiled_encode. fold stride. unfold tile_grid.
  rewrite !(py_range_origins_pos _ _ Hs).
  destruct (origins_cons _ _ HH Hs) as [rest3 E3].
  destruct (origins_cons _ _ HW Hs) as [rest4 E4].
  rewrite E3, E4.
  unfold bind at 1. unfold emit. unfold bind at 1. unfold bind at 1.
  unfold lift at 1. cbn [mapM]. unfold bind at 1. unfold bind at 1.
  unfold lift at 1. cbn [mapM]. unfold bind at 1.
  unfold hw_encode_tile at 1. unfold bind at 1.
  unfold call_encoder at 1. unfold bind at 1. unfold emit, lift at 1.
  fold first_tile. rewrite He. rewrite <- app_assoc. reflexivity.
Qed.

End TraceFacts.

Lemma vae_hw0_exact : exact_hw_geometry vae_hw0.
Proof. split; [left; reflexivity |]. split; vm_compute; reflexivity. Qed.

Lemma hw_tiled_encode_calls_witness :
  exact_hw_geometry vae_hw0
  /\ 0 < py_int (inject_Z (tile_sample_min_size vae_hw0) * (1 - tile_overlap_factor vae_hw0))
  /\ (exists moments,
        fst (_hw_tiled_encode q_ops id_codec vae_hw0 hw_volume true []) = inr moments)
  /\ encoder_inputs (snd (_hw_tiled_encode q_ops id_codec vae_hw0 hw_volume true []))
     = encoder_inputs []
       ++ flat_map (fun i => map (fun j => hw_tile 64 i j hw_volume) (origins 70 64))
                   (origins 100 64).
Proof.
  assert (H1 : 0 < py_int (inject_Z (tile_sample_min_size vae_hw0)
                           * (1 - tile_overlap_factor vae_hw0)))
    by (vm_compute; reflexivity).
  assert (H2 : exists moments,
             fst (_hw_tiled_encode q_ops id_codec vae_hw0 hw_volume true [])
             = inr moments)
    by (eexists; vm_compute; reflexivity).
  split; [exact vae_hw0_exact |]. split; [exact H1 |]. split; [exact H2 |].
  exact (proj2 (hw_tiled_encode_calls q_ops id_codec vae_hw0 hw_volume true [])
               vae_hw0_exact H1 H2).
Defined.

Lemma hw_tiled_encode_propagates_failure_witness :
  exact_hw_geometry vae_hw0
  /\ 0 < py_int (inject_Z (tile_sample_min_size vae_hw0) * (1 - tile_overlap_factor vae_hw0))
  /\ 0 < dim Ax3 hw_volume /\ 0 < dim Ax4 hw_volume
  /\ encoder failing_codec (hw_tile (tile_sample_min_size vae_hw0) 0 0 hw_volume)
     = inl RuntimeError
  /\ _hw_tiled_encode q_ops failing_codec vae_hw0 hw_volume true []
     = (inl RuntimeError,
        [] ++ [Ev_hw_tiled_encode hw_volume]
           ++ [EvEncoder (hw_tile (tile_sample_min_size vae_hw0) 0 0 hw_volume)]).
Proof.
  assert (H1 : 0 < py_int (inject_Z (tile_sample_min_size vae_hw0)
                           * (1 - tile_overlap_factor vae_hw0)))
    by (vm_compute; reflexivity).
  assert (H2 : 0 < dim Ax3 hw_volume) by (vm_compute; reflexivity).
  assert (H3 : 0 < dim Ax4 hw_volume) by (vm_compute; reflexivity).
  assert (H4 : encoder failing_codec
                 (hw_tile (tile_sample_min_size vae_hw0) 0 0 hw_volume)
               = inl RuntimeError) by reflexivity.
  exact (conj vae_hw0_exact (conj H1 (conj H2 (conj H3 (conj H4
           (hw_tiled_encode_propagates_failure q_ops failing_codec vae_hw0
              hw_volume true RuntimeError [] vae_hw0_exact H1 H2 H3 H4)))))).
Defined.

(** ** Shapes of the composed outputs *)

Section Shapes.

Context {elem scalar : Type}.
Variable ops : elem_ops elem scalar.

Lemma crop_len_min (limit n : Z) :
  0 <= limit -> 0 <= n -> crop_len limit n = Z.min limit n.
Proof.
  intros Hl Hn. unfold crop_len, slice_bound.
  replace (limit <? 0) with false by (symmetry; apply Z.ltb_ge; lia). lia.
Qed.

Lemma shape_crop (ax : axis) (limit : Z) (t : tensor elem) :
  shape (tslice ax None (Some limit) t)
  = set ax (crop_len limit (dim ax t)) (shape t).
Proof. reflexivity. Qed.

(** A blend between tensors that agree on the other axes returns, and keeps
    the shape of [b]. *)
Lemma blend_total (ax : axis) (a b : tensor elem) (e : Z) :
  (forall x, x <> ax -> dim x a = dim x b) ->
  exists r, blend ops ax a b e = inr r /\ shape r = shape b.
Proof.
  intros Hd. destruct (blend_spec ops ax a b e Hd) as (r & Hr & Hs & _).
  exists r. auto.
Qed.

(** [torch.cat] of tensors that differ on the concatenated axis only. *)
Lemma cat_total (ax : axis) (sh0 : idx) (ts : list (tensor elem)) (vs : list Z) :
  vs <> [] ->
  shape <$> ts = (fun v => set ax v sh0) <$> vs ->
  exists r, cat ax ts = inr r /\ shape r = set ax (foldr Z.add 0 vs) sh0.
Proof.
  intros Hne Hsh.
  destruct vs as [| v vs]; [congruence |]. destruct ts as [| t ts]; [discriminate |].
  cbn [fmap list_fmap] in Hsh. inversion Hsh as [[Ht Hts]]. clear Hsh.
  unfold cat.
  assert (Hall : forallb (fun t' => same_other_dims ax (shape t) (shape t')) ts = true
                 /\ sum_dims ax ts = foldr Z.add 0 vs).
  { clear Hne. revert vs Hts. induction ts as [| t' ts IH]; intros [| v' vs] Hts;
      try discriminate; [split; reflexivity |].
    cbn [fmap list_fmap] in Hts. inversion Hts as [[Ht' Hts']].
    destruct (IH vs Hts') as [I1 I2].
    cbn [forallb sum_dims foldr]. unfold sum_dims in I2.
    rewrite I1, I2, Ht, Ht', same_other_dims_set.
    unfold dim. rewrite Ht', get_set_same. split; reflexivity. }
  destruct Hall as [H1 H2]. rewrite H1.
  eexists. split; [reflexivity |]. cbn [shape sum_dims foldr].
  unfold sum_dims in H2. rewrite H2. unfold dim. rewrite Ht, get_set_same, set_set_same.
  reflexivity.
Qed.

Lemma compose_rest_shapes (e tl : Z) (sh : idx) :
  forall (Ts : list Z) (rest : list (tensor elem)) (prev : tensor elem) (Tp : Z),
    shape prev = set Ax2 Tp sh ->
    shape <$> rest = (fun T => set Ax2 T sh) <$> Ts ->
    exists out,
      compose_rest ops e tl prev rest = inr out
      /\ shape <$> out = (fun T => set Ax2 (crop_len tl T) sh) <$> Ts.
Proof.
  induction Ts as [| T Ts IH]; intros [| s rest] prev Tp Hprev Hsh;
    try discriminate.
  - exists []. split; reflexivity.
  - cbn [fmap list_fmap] in Hsh. injection Hsh as Hs Hrest.
    change (shape s = set Ax2 T sh) in Hs.
    change (shape <$> rest = (fun T => set Ax2 T sh) <$> Ts) in Hrest.
    cbn [compose_rest].
    destruct (blend_total Ax2 prev s e) as (s' & Hb & Hs').
    { intros x Hx. unfold dim. rewrite Hprev, Hs, !get_set_other by exact Hx.
      reflexivity. }
    unfold blend_z. rewrite Hb. cbn [rbind].
    destruct (IH rest s' T ltac:(congruence) Hrest) as (out & Ho & Hso).
    fold (blend_z ops) in Ho. rewrite Ho. cbn [rbind].
    eexists. split; [reflexivity |].
    cbn [fmap list_fmap]. f_equal; [| exact Hso].
    rewrite shape_crop. unfold dim. rewrite Hs', Hs, get_set_same, set_set_same.
    reflexivity.
Qed.

(** X14.  The temporal composition of segments that share every extent but
    time never fails, whatever the blend extent, and the time length of its
    result is the cropped length of the first segment for [t_limit + 1] plus
    the cropped lengths of the others for [t_limit] (for non-negative
    numbers the cropped length is the minimum of the limit and the segment's
    length); composing no segment at all raises. *)
Theorem blend_segments_shape (e tl : Z) (sh : idx) (T0 : Z) (Ts : list Z)
    (row : list (tensor elem)) :
  shape <$> row = (fun T => set Ax2 T sh) <$> (T0 :: Ts) ->
  (exists r,
     blend_segments ops e tl row = inr r
     /\ shape r
        = set Ax2 (crop_len (tl + 1) T0 + foldr Z.add 0 (crop_len tl <$> Ts)) sh)
  /\ blend_segments ops e tl [] = inl RuntimeError
  /\ (forall limit n, 0 <= limit -> 0 <= n -> crop_len limit n = Z.min limit n).
Proof.
  intros Hsh. split; [| split; [reflexivity | exact crop_len_min]].
  rewrite blend_segments_spec.
  destruct row as [| s0 rest]; [discriminate |].
  cbn [fmap list_fmap] in Hsh. injection Hsh as Hs0 Hrest.
  change (shape s0 = set Ax2 T0 sh) in Hs0.
  change (shape <$> rest = (fun T => set Ax2 T sh) <$> Ts) in Hrest.
  unfold compose_temporal.
  destruct (compose_rest_shapes e tl sh Ts rest s0 T0 Hs0 Hrest) as (out & Ho & Hso).
  rewrite Ho. cbn [rbind].
  destruct (cat_total Ax2 sh (tslice Ax2 None (Some (tl + 1)) s0 :: out)
              (crop_len (tl + 1) T0 :: (crop_len tl <$> Ts)))
    as (r & Hr & Hsr); [discriminate | |].
  - cbn [fmap list_fmap]. f_equal.
    + rewrite shape_crop. unfold dim. rewrite Hs0, get_set_same, set_set_same.
      reflexivity.
    + rewrite Hso. rewrite <- list_fmap_compose. reflexivity.
  - exists r. split; [exact Hr | exact Hsr].
Qed.

End Shapes.

Lemma blend_segments_shape_witness :
  shape <$> three_segments
  = (fun T => set Ax2 T (Idx 1 1 0 4 4)) <$> [33; 32; 11]
  /\ exists r,
       blend_segments q_ops 1 3 three_segments = inr r
       /\ shape r = Idx 1 1 10 4 4.
Proof.
  assert (H : shape <$> three_segments
              = (fun T => set Ax2 T (Idx 1 1 0 4 4)) <$> [33; 32; 11]) by reflexivity.
  split; [exact H |].
  destruct (proj1 (blend_segments_shape q_ops 1 3 (Idx 1 1 0 4 4) 33 [32; 11]
                     three_segments H)) as (r & Hr & Hs).
  exists r. split; [exact Hr | exact Hs].
Defined.

Section GridShapes.

Context {elem scalar : Type}.
Variable ops : elem_ops elem scalar.
Variables (B C T : Z) (hs ws : list Z) (e rl : Z).

Lemma grid_row_lookup (rows : list (list (tensor elem))) (i : nat) (h : Z) :
  grid_has_shapes B C T hs ws rows -> hs !! i = Some h ->
  exists row, rows !! i = Some row
              /\ shape <$> row = (fun w => Idx B C T h w) <$> ws.
Proof.
  intros G Hh. unfold grid_has_shapes, grid_shapes in G.
  assert (G1 : ((fun row => shape <$> row) <$> rows) !! i
               = ((fun h => (fun w => Idx B C T h w) <$> ws) <$> hs) !! i)
    by (rewrite G; reflexivity).
  rewrite !list_lookup_fmap, Hh in G1.
  destruct (rows !! i) as [row |]; [| discriminate].
  exists row. split; [reflexivity |]. injection G1 as G1. exact G1.
Qed.

Lemma grid_tile_lookup (rows : list (list (tensor elem))) (i j : nat) (h w : Z) :
  grid_has_shapes B C T hs ws rows -> hs !! i = Some h -> ws !! j = Some w ->
  exists row t, rows !! i = Some row /\ row !! j = Some t
                /\ shape t = Idx B C T h w.
Proof.
  intros G Hh Hw. destruct (grid_row_lookup rows i h G Hh) as (row & Hr & Hs).
  assert (G2 : (shape <$> row) !! j = ((fun w => Idx B C T h w) <$> ws) !! j)
    by (rewrite Hs; reflexivity).
  rewrite !list_lookup_fmap, Hw in G2.
  destruct (row !! j) as [t |] eqn:Et; [| discriminate].
  exists row, t. split; [exact Hr |]. split; [exact Et |].
  injection G2 as G2. exact G2.
Qed.

Lemma grid_set_keeps_shapes (rows : list (list (tensor elem))) (i j : nat)
    (row : list (tensor elem)) (t t0 : tensor elem) :
  grid_has_shapes B C T hs ws rows ->
  rows !! i = Some row -> row !! j = Some t0 -> shape t = shape t0 ->
  grid_has_shapes B C T hs ws (grid_set rows i j t).
Proof.
  unfold grid_has_shapes, grid_set. intros G Hr Hj Hs. rewrite <- G.
  apply list_eq. intros k. rewrite !list_lookup_fmap.
  destruct (decide (i = k)) as [<- | Hne].
  - rewrite list_lookup_alter_eq, Hr. cbn [fmap option_fmap option_map].
    f_equal. rewrite list_fmap_insert, Hs. apply list_insert_id.
    rewrite list_lookup_fmap, Hj. reflexivity.
  - rewrite list_lookup_alter_ne by exact Hne. reflexivity.
Qed.

Lemma shape_crop_hw (t : tensor elem) (h w : Z) :
  shape t = Idx B C T h w ->
  shape (crop_hw rl t) = Idx B C T (crop_len rl h) (crop_len rl w).
Proof.
  intros Hs. unfold crop_hw. rewrite shape_crop. unfold dim. rewrite shape_crop.
  unfold dim. rewrite Hs. reflexivity.
Qed.

Lemma blend_tile_shapes (rows : list (list (tensor elem))) (acc : list (tensor elem))
    (i j : nat) (h w : Z) :
  grid_has_shapes B C T hs ws rows -> hs !! i = Some h -> ws !! j = Some w ->
  exists rows' t',
    blend_tile ops e rl i (rows, acc) j = inr (rows', acc ++ [t'])
    /\ grid_has_shapes B C T hs ws rows'
    /\ shape t' = Idx B C T (crop_len rl h) (crop_len rl w).
Proof.
  intros G Hh Hw.
  destruct (grid_tile_lookup rows i j h w G Hh Hw) as (row & t & Hr & Ht & Hst).
  unfold blend_tile. rewrite (grid_get_lookup rows i j row t Hr Ht). cbn [rbind].
  assert (Hv : exists t1,
             (if (0 <? i)%nat
              then let+ above := grid_get rows (i - 1) j in blend_v ops above t e
              else inr t) = inr t1 /\ shape t1 = shape t).
  { destruct (0 <? i)%nat eqn:Ei; [| eexists; split; reflexivity].
    apply Nat.ltb_lt in Ei.
    destruct (lookup_lt_is_Some_2 hs (i - 1)) as [h' Hh'].
    { apply lookup_lt_Some in Hh. lia. }
    destruct (grid_tile_lookup rows (i - 1) j h' w G Hh' Hw)
      as (row' & t' & Hr' & Ht' & Hst').
    rewrite (grid_get_lookup _ _ _ _ _ Hr' Ht'). cbn [rbind].
    apply blend_total. intros x Hx. unfold dim. rewrite Hst', Hst.
    destruct x; try reflexivity. congruence. }
  destruct Hv as (t1 & Ev & Hs1). rewrite Ev. cbn [rbind].
  assert (G1 : grid_has_shapes B C T hs ws (grid_set rows i j t1))
    by (apply (grid_set_keeps_shapes rows i j row t1 t); assumption).
  destruct (grid_tile_lookup _ i j h w G1 Hh Hw) as (row1 & t1' & Hr1 & Ht1 & Hst1).
  assert (Hb : exists t2,
             (if (0 <? j)%nat
              then let+ beside := grid_get (grid_set rows i j t1) i (j - 1) in
                   blend_h ops beside t1 e
              else inr t1) = inr t2 /\ shape t2 = shape t1).
  { destruct (0 <? j)%nat eqn:Ej; [| eexists; split; reflexivity].
    apply Nat.ltb_lt in Ej.
    destruct (lookup_lt_is_Some_2 ws (j - 1)) as [w' Hw'].
    { apply lookup_lt_Some in Hw. lia. }
    destruct (grid_tile_lookup _ i (j - 1) h w' G1 Hh Hw')
      as (row' & t' & Hr' & Ht' & Hst').
    rewrite (grid_get_lookup _ _ _ _ _ Hr' Ht'). cbn [rbind].
    apply blend_total. intros x Hx. unfold dim. rewrite Hst', Hs1, Hst.
    destruct x; try reflexivity. congruence. }
  destruct Hb as (t2 & Eb & Hs2). rewrite Eb. cbn [rbind].
  eexists _, _. split; [reflexivity |]. split.
  - apply (grid_set_keeps_shapes _ i j row1 t2 t1'); try assumption. congruence.
  - apply shape_crop_hw. congruence.
Qed.

Lemma blend_tile_loop_shapes (i : nat) (h : Z) :
  hs !! i = Some h ->
  forall (k s : nat) (rows : list (list (tensor elem))) (acc : list (tensor elem)),
    grid_has_shapes B C T hs ws rows ->
    (s + k <= length ws)%nat ->
    exists rows' out,
      rfoldM (blend_tile ops e rl i) (seq s k) (rows, acc) = inr (rows', acc ++ out)
      /\ grid_has_shapes B C T hs ws rows'
      /\ shape <$> out
         = (fun w => Idx B C T (crop_len rl h) (crop_len rl w)) <$> take k (drop s ws).
Proof.
  intros Hh. induction k as [| k IH]; intros s rows acc G Hsk.
  - exists rows, []. rewrite take_0, app_nil_r. cbn. auto.
  - cbn [seq rfoldM].
    destruct (lookup_lt_is_Some_2 ws s ltac:(lia)) as [w Hw].
    destruct (blend_tile_shapes rows acc i s h w G Hh Hw) as (rows1 & t' & E1 & G1 & Hs1).
    rewrite E1. cbn [rbind].
    destruct (IH (S s) rows1 (acc ++ [t']) G1 ltac:(lia)) as (rows' & out & E2 & G2 & Hs2).
    exists rows', (t' :: out). rewrite E2, <- app_assoc.
    split; [reflexivity |]. split; [exact G2 |].
    rewrite (drop_S ws w s Hw), firstn_cons, !fmap_cons, Hs1, Hs2. reflexivity.
Qed.

Lemma blend_row_shapes (rows : list (list (tensor elem))) (acc : list (tensor elem))
    (i : nat) (h : Z) :
  ws <> [] ->
  grid_has_shapes B C T hs ws rows -> hs !! i = Some h ->
  exists rows' r,
    blend_row ops e rl (rows, acc) i = inr (rows', acc ++ [r])
    /\ grid_has_shapes B C T hs ws rows'
    /\ shape r = Idx B C T (crop_len rl h) (foldr Z.add 0 (crop_len rl <$> ws)).
Proof.
  intros Hws G Hh.
  destruct (grid_row_lookup rows i h G Hh) as (row & Hr & Hsr).
  assert (Hlen : length row = length ws).
  { rewrite <- (length_fmap shape row), Hsr, length_fmap. reflexivity. }
  unfold blend_row. rewrite Hr, Hlen.
  destruct (blend_tile_loop_shapes i h Hh (length ws) O rows [] G ltac:(lia))
    as (rows' & out & E1 & G1 & Hs1).
  rewrite E1. cbn [rbind app]. rewrite drop_0, firstn_all in Hs1.
  destruct (cat_total Ax4 (Idx B C T (crop_len rl h) 0) out (crop_len rl <$> ws))
    as (r & Er & Hsr').
  - destruct ws; [congruence | discriminate].
  - rewrite Hs1, <- list_fmap_compose. reflexivity.
  - rewrite Er. cbn [rbind]. exists rows', r.
    split; [reflexivity |]. split; [exact G1 | exact Hsr'].
Qed.

Lemma blend_row_loop_shapes :
  ws <> [] ->
  forall (k s : nat) (rows : list (list (tensor elem))) (acc : list (tensor elem)),
    grid_has_shapes B C T hs ws rows ->
    (s + k <= length hs)%nat ->
    exists rows' out,
      rfoldM (blend_row ops e rl) (seq s k) (rows, acc) = inr (rows', acc ++ out)
      /\ grid_has_shapes B C T hs ws rows'
      /\ shape <$> out
         = (fun h => Idx B C T (crop_len rl h)
                         (foldr Z.add 0 (crop_len rl <$> ws)))
           <$> take k (drop s hs).
Proof.
  intros Hws. induction k as [| k IH]; intros s rows acc G Hsk.
  - exists rows, []. rewrite take_0, app_nil_r. cbn. auto.
  - cbn [seq rfoldM].
    destruct (lookup_lt_is_Some_2 hs s ltac:(lia)) as [h Hh].
    destruct (blend_row_shapes rows acc s h Hws G Hh) as (rows1 & r & E1 & G1 & Hs1).
    rewrite E1. cbn [rbind].
    destruct (IH (S s) rows1 (acc ++ [r]) G1 ltac:(lia)) as (rows' & out & E2 & G2 & Hs2).
    exists rows', (r :: out). rewrite E2, <- app_assoc.
    split; [reflexivity |]. split; [exact G2 |].
    rewrite (drop_S hs h s Hh), firstn_cons, !fmap_cons, Hs1, Hs2. reflexivity.
Qed.

(** X15.  The spatial composition of a non-empty grid of tiles that share
    batch, channel and time extents, with one height per row and one width
    per column, never fails, whatever the blend extent; its result keeps
    those three extents, its height is the sum over the rows of the cropped
    row height and its width the sum over the columns of the cropped column
    width, where a tile smaller than [row_limit] contributes its own size.
    Composing an empty grid raises. *)
Theorem blend_rows_shape (rows : list (list (tensor elem))) :
  hs <> [] -> ws <> [] ->
  grid_has_shapes B C T hs ws rows ->
  (exists r,
     blend_rows ops e rl rows = inr r
     /\ shape r = Idx B C T (foldr Z.add 0 (crop_len rl <$> hs))
                          (foldr Z.add 0 (crop_len rl <$> ws)))
  /\ blend_rows ops e rl [] = inl RuntimeError
  /\ (forall n, 0 <= rl -> 0 <= n -> crop_len rl n = Z.min rl n).
Proof.
  intros Hhs Hws G.
  split; [| split; [reflexivity | intros n; apply crop_len_min]].
  assert (Hlen : length rows = length hs).
  { unfold grid_has_shapes, grid_shapes in G.
    rewrite <- (length_fmap (fun row => shape <$> row) rows), G, length_fmap.
    reflexivity. }
  unfold blend_rows. rewrite Hlen.
  destruct (blend_row_loop_shapes Hws (length hs) O rows [] G ltac:(lia))
    as (rows' & out & E1 & _ & Hs1).
  rewrite E1. cbn [rbind app]. rewrite drop_0, firstn_all in Hs1.
  destruct (cat_total Ax3 (Idx B C T 0 (foldr Z.add 0 (crop_len rl <$> ws))) out
              (crop_len rl <$> hs)) as (r & Er & Hsr).
  - destruct hs; [congruence | discriminate].
  - rewrite Hs1, <- list_fmap_compose. reflexivity.
  - exists r. split; [exact Er | exact Hsr].
Qed.

End GridShapes.

Lemma blend_rows_shape_witness :
  [2; 1] <> [] /\ grid_has_shapes 1 1 3 [2; 1] [2; 1] four_tiles
  /\ exists r,
       blend_rows q_ops 1 1 four_tiles = inr r /\ shape r = Idx 1 1 3 2 2.
Proof.
  assert (H1 : [2; 1] <> ([] : list Z)) by discriminate.
  assert (H2 : grid_has_shapes 1 1 3 [2; 1] [2; 1] four_tiles) by reflexivity.
  split; [exact H1 |]. split; [exact H2 |].
  destruct (proj1 (blend_rows_shape q_ops 1 1 3 [2; 1] [2; 1] 1 1 four_tiles
                     H1 H1 H2)) as (r & Hr & Hs).
  exists r. split; [exact Hr | exact Hs].
Defined.

(** ** Encoding with an unsupported normaliser *)

Section Unsupported.

Context {elem scalar : Type}.
Variable ops : elem_ops elem scalar.
Variable net : codec elem.

Lemma encode_adapter_batchnorm2d (self : vae) (x : tensor elem) (tr : list (event elem)) :
  latent_norm_out self = BatchNorm2d ->
  exists e tr', _encode net self x tr = (inl e, tr').
Proof.
  intros Hbn.
  unfold _encode, bind, emit, call_encoder, call_quant_conv, bind, emit, lift.
  destruct (encoder net x) as [e | h]; [eauto |].
  destruct (quant_conv net h) as [e | m]; [eauto |].
  unfold _normalize_latent_channels. rewrite Hbn. cbn. eauto.
Qed.

(** X16.  With a [BatchNorm2d] latent normaliser and spatial tiling off,
    [encode] never returns a value: on the temporally tiled branch as on the
    other one, the first call of [_encode] raises (the encoder's or the
    convolution's exception, or else [NotImplementedError]). *)
Theorem encode_batchnorm2d_never_returns (self : vae) (z : tensor elem)
    (return_dict : bool) (tr : list (event elem)) :
  latent_norm_out self = BatchNorm2d ->
  use_hw_tiling self = false ->
  exists e, fst (encode ops net self z return_dict tr) = inl e.
Proof.
  intros Hbn Hhw. unfold encode. unfold bind at 1.
  destruct (z_tiling_engaged self z) eqn:Heng.
  - destruct (z_tiling_engaged_bounds self z Heng) as [Hzs HT].
    unfold encode_z_tiled.
    destruct (temporal_encode_geometry (z_sample_size self) ltac:(lia)) as [G1 G2].
    rewrite G1, G2.
    assert (Hstride : 0 < z_sample_size self * 8 * 3 / 4).
    { replace (z_sample_size self * 8 * 3) with (6 * z_sample_size self * 4) by lia.
      rewrite Z.div_mul by lia. lia. }
    assert (HT0 : 0 < dim Ax2 z) by lia.
    rewrite (py_range_origins _ _ HT0 Hstride).
    destruct (origins_cons _ _ HT0 Hstride) as [rest Ho]. rewrite Ho.
    unfold bind at 1 2. unfold lift at 1. cbn [mapM]. unfold bind at 1.
    unfold encode_segment at 1. rewrite Hhw. unfold bind at 1.
    destruct (encode_adapter_batchnorm2d self
                (tslice Ax2 (Some 0) (Some (0 + z_sample_size self * 8 + 1)) z)
                tr Hbn) as (e & tr' & He).
    rewrite He. exists e. reflexivity.
  - unfold encode_untiled_z. rewrite Hhw. cbn [andb].
    destruct (encode_adapter_batchnorm2d self z tr Hbn) as (e & tr' & He).
    rewrite He. exists e. reflexivity.
Qed.

End Unsupported.

Lemma encode_batchnorm2d_never_returns_witness :
  latent_norm_out vae_bn2d = BatchNorm2d
  /\ use_hw_tiling vae_bn2d = false
  /\ exists e, fst (encode q_ops id_codec vae_bn2d single_frame true []) = inl e.
Proof.
  split; [reflexivity |]. split; [reflexivity |].
  exact (encode_batchnorm2d_never_returns q_ops id_codec vae_bn2d single_frame
           true [] eq_refl eq_refl).
Defined.

(** X17.  Whatever the tiling switches and the temporal tile size, [encode]
    hands a volume of at most one frame to [_encode] as a whole: neither the
    temporal nor the spatial controller is entered.  The posterior is then
    built from the moments [_encode] returns, which may raise, and wrapped. *)
Theorem encode_single_frame_uses_adapter {elem scalar : Type}
    (ops : elem_ops elem scalar) (net : codec elem) (self : vae)
    (z : tensor elem) (return_dict : bool) :
  dim Ax2 z <= 1 ->
  z_tiling_engaged self z = false
  /\ forall tr,
       encode ops net self z return_dict tr
       = (let* moments := _encode net self z in
          let* _ := lift (diagonal_gaussian net moments) in
          if negb return_dict then ret (PosteriorTuple moments)
          else ret (AutoencoderKLOutput moments)) tr.
Proof.
  intros HT. split; [apply z_tiling_not_engaged_single_frame; exact HT |].
  intros tr. rewrite (encode_single_frame_untiled ops net self z return_dict HT).
  reflexivity.
Qed.

Lemma encode_single_frame_uses_adapter_witness :
  dim Ax2 single_frame_2ch <= 1
  /\ z_tiling_engaged (enable_hw_tiling vae_z4) single_frame_2ch = false
  /\ forall tr,
       encode q_ops id_codec (enable_hw_tiling vae_z4) single_frame_2ch true tr
       = (let* moments := _encode id_codec (enable_hw_tiling vae_z4) single_frame_2ch in
          let* _ := lift (two_chunks moments) in
          ret (AutoencoderKLOutput moments)) tr.
Proof.
  assert (H : dim Ax2 single_frame_2ch <= 1) by (vm_compute; discriminate).
  exact (conj H (encode_single_frame_uses_adapter q_ops id_codec
                   (enable_hw_tiling vae_z4) single_frame_2ch true H)).
Defined.

(** ** Coverage of the volume by the tiles *)

Lemma origins_cover (T stride size t : Z) :
  0 < stride <= size -> 0 <= t < T ->
  exists i, In i (origins T stride) /\ i <= t < i + size.
Proof.
  intros Hs Ht. exists (Z.of_nat (Z.to_nat (t / stride)) * stride).
  pose proof (Z.div_pos t stride ltac:(lia) ltac:(lia)) as Hq.
  pose proof (Z.mul_div_le t stride ltac:(lia)) as Hlo.
  pose proof (Z.mul_succ_div_gt t stride ltac:(lia)) as Hhi.
  rewrite Z2Nat.id by exact Hq. split; [| nia].
  unfold origins. apply in_map_iff. exists (Z.to_nat (t / stride)).
  split; [rewrite Z2Nat.id by exact Hq; reflexivity |].
  apply in_seq. split; [lia |]. cbn.
  apply Z2Nat.inj_lt; [exact Hq | |].
  - apply Z.div_pos; lia.
  - replace (T + stride - 1) with (T - 1 + 1 * stride) by lia.
    rewrite Z.div_add by lia.
    assert (t / stride <= (T - 1) / stride) by (apply Z.div_le_mono; lia). lia.
Qed.

Lemma py_int_stride_bound (size : Z) (f : Q) :
  (0 <= f)%Q -> (f <= 1)%Q ->
  0 < py_int (inject_Z size * (1 - f)) ->
  py_int (inject_Z size * (1 - f)) <= size.
Proof.
  intros Hf Hf1 Hpos. destruct f as [a b].
  unfold Qle in Hf, Hf1. cbn in Hf, Hf1. unfold py_int in *. cbn in *.
  destruct (Z.le_gt_cases 0 size) as [H0 | H0].
  - apply Z.quot_le_upper_bound; [lia | nia].
  - exfalso. apply Z.lt_nge in Hpos. apply Hpos.
    apply Z.quot_le_upper_bound; [lia | nia].
Qed.

Lemma exact_hw_geometry_factor (self : vae) :
  exact_hw_geometry self ->
  (0 <= tile_overlap_factor self)%Q /\ (tile_overlap_factor self <= 1)%Q.
Proof.
  intros [[-> | ->] _]; split; unfold Qle; cbn; lia.
Qed.

Section Coverage.

Context {elem scalar : Type}.
Variable ops : elem_ops elem scalar.
Variable net : codec elem.

Lemma dim_tslice_range (ax : axis) (z : tensor elem) (i len : Z) :
  0 <= i < dim ax z -> 0 < len ->
  dim ax (tslice ax (Some i) (Some (i + len)) z) = Z.min len (dim ax z - i).
Proof.
  intros Hi Hlen. unfold tslice, dim in *. cbn [shape slice_bound].
  rewrite get_set_same.
  replace (i <? 0) with false by (symmetry; apply Z.ltb_ge; lia).
  replace (i + len <? 0) with false by (symmetry; apply Z.ltb_ge; lia).
  lia.
Qed.

Lemma dim_tslice_other (x ax : axis) (lo hi : option Z) (z : tensor elem) :
  x <> ax -> dim x (tslice ax lo hi z) = dim x z.
Proof. intros Hx. unfold tslice, dim. cbn [shape]. apply get_set_other. exact Hx. Qed.

Lemma data_tslice (ax : axis) (z : tensor elem) (i : Z) (hi : option Z) (p : idx) :
  0 <= i <= dim ax z ->
  data (tslice ax (Some i) hi z) p = data z (set ax (get ax p + i) p).
Proof.
  intros Hi. unfold tslice. cbn [data slice_bound].
  replace (i <? 0) with false by (symmetry; apply Z.ltb_ge; lia).
  replace (Z.min i (dim ax z)) with i by lia. reflexivity.
Qed.

(** The tile at the origins [i], [j]: its extents and its elements. *)
Lemma hw_tile_contents (size i j : Z) (x : tensor elem) :
  0 < size -> 0 <= i < dim Ax3 x -> 0 <= j < dim Ax4 x ->
  dim Ax3 (hw_tile size i j x) = Z.min size (dim Ax3 x - i)
  /\ dim Ax4 (hw_tile size i j x) = Z.min size (dim Ax4 x - j)
  /\ forall p, data (hw_tile size i j x) p
               = data x (set Ax3 (get Ax3 p + i) (set Ax4 (get Ax4 p + j) p)).
Proof.
  intros Hs Hi Hj. unfold hw_tile. split; [| split].
  - rewrite dim_tslice_other by discriminate. apply dim_tslice_range; assumption.
  - rewrite dim_tslice_range.
    + rewrite dim_tslice_other by discriminate. reflexivity.
    + rewrite dim_tslice_other by discriminate. exact Hj.
    + exact Hs.
  - intros p. rewrite data_tslice
      by (rewrite dim_tslice_other by discriminate; lia).
    rewrite data_tslice by lia.
    replace (get Ax3 (set Ax4 (get Ax4 p + j) p)) with (get Ax3 p)
      by (symmetry; apply get_set_other; discriminate).
    reflexivity.
Qed.

(** X18.  At an overlap factor of 0 or 0.25 and tile sizes below [2 ^ 50]
    (where the float products of the geometry are exact), when
    [_hw_tiled_encode] has a positive stride and returns normally, the tiles
    it has handed to the encoder leave no gap: every position [(h, w)] of the
    volume lies inside one of them, at the origins [(i, j)] say, and the
    element of that tile at [(h - i, w - j)] is the element of the volume at
    [(h, w)]. *)
Theorem hw_tiles_cover_the_volume (self : vae) (x : tensor elem) (return_dict : bool)
    (tr : list (event elem)) :
  let size := tile_sample_min_size self in
  let stride := py_int (inject_Z size * (1 - tile_overlap_factor self)) in
  let run := _hw_tiled_encode ops net self x return_dict tr in
  exact_hw_geometry self ->
  0 < stride ->
  (exists moments, fst run = inr moments) ->
  exists tiles,
    encoder_inputs (snd run) = encoder_inputs tr ++ tiles
    /\ forall h w, 0 <= h < dim Ax3 x -> 0 <= w < dim Ax4 x ->
         exists i j,
           In (hw_tile size i j x) tiles
           /\ i <= h < i + dim Ax3 (hw_tile size i j x)
           /\ j <= w < j + dim Ax4 (hw_tile size i j x)
           /\ forall p, data (hw_tile size i j x) p
                        = data x (set Ax3 (get Ax3 p + i) (set Ax4 (get Ax4 p + j) p)).
Proof.
  intros size stride run Hex Hstride Hok.
  destruct (exact_hw_geometry_factor self Hex) as [Hf0 Hf1].
  pose proof (py_int_stride_bound size _ Hf0 Hf1 Hstride) as Hle. fold stride in Hle.
  eexists. split; [apply (hw_tiled_encode_inputs ops net self x return_dict tr Hstride Hok) |].
  intros h w Hh Hw.
  destruct (origins_cover (dim Ax3 x) stride size h ltac:(lia) Hh) as (i & Hi & Hbi).
  destruct (origins_cover (dim Ax4 x) stride size w ltac:(lia) Hw) as (j & Hj & Hbj).
  pose proof (origins_bounds (dim Ax3 x) stride i ltac:(lia) Hstride Hi) as Hib.
  pose proof (origins_bounds (dim Ax4 x) stride j ltac:(lia) Hstride Hj) as Hjb.
  destruct (hw_tile_contents size i j x ltac:(lia) Hib Hjb) as (D3 & D4 & Hdat).
  exists i, j. split; [| split; [| split]].
  - apply in_flat_map. exists i. split; [exact Hi |].
    apply in_map_iff. exists j. split; [reflexivity | exact Hj].
  - rewrite D3. lia.
  - rewrite D4. lia.
  - exact Hdat.
Qed.

Lemma encode_entries_calls (tr new : list (event elem)) :
  Forall collaborator_call new -> encode_entries (tr ++ new) = encode_entries tr.
Proof.
  intros H. unfold encode_entries. rewrite omap_app.
  replace (omap _ new) with (@nil (tensor elem)); [apply app_nil_r |].
  induction H as [| ev new Hev _ IH]; [reflexivity |].
  destruct ev; cbn in *; try exact IH; contradiction.
Qed.

Lemma entries_after_entry (ev : event elem) (w : tensor elem)
    (k : Trace.M (event elem) (tensor elem)) (tr : list (event elem)) :
  encode_entries [ev] = [w] ->
  emits collaborator_call k ->
  encode_entries (snd ((let* _ := emit ev in k) tr)) = encode_entries tr ++ [w].
Proof.
  intros Hev Hk. unfold bind, emit.
  destruct (Hk (tr ++ [ev])) as (new & E & F). rewrite E.
  rewrite encode_entries_calls by exact F.
  unfold encode_entries. rewrite omap_app. fold (encode_entries [ev]).
  rewrite Hev. reflexivity.
Qed.

Lemma emits_call (P : event elem -> Prop) {A} (ev : event elem) (r : result A) :
  P ev -> emits P (let* _ := emit ev in lift r).
Proof. intros H. apply emits_bind; [apply emits_emit; exact H | intros _; apply emits_lift]. Qed.

(** Whatever its outcome, transforming a window adds exactly one entry. *)
Lemma encode_window_entries (self : vae) (return_dict : bool) (w : tensor elem)
    (tr : list (event elem)) :
  encode_entries (snd (encode_window ops net self return_dict w tr))
  = encode_entries tr ++ [w].
Proof.
  unfold encode_window. destruct (use_hw_tiling self).
  - unfold _hw_tiled_encode. apply entries_after_entry; [reflexivity |].
    apply emits_bind; [| intros rows; apply emits_lift].
    apply emits_tile_grid. intros i j. unfold hw_encode_tile.
    apply emits_bind; [apply emits_call; exact I |].
    intros t. apply emits_call. exact I.
  - unfold _encode. apply entries_after_entry; [reflexivity |].
    apply emits_bind; [apply emits_call; exact I |]. intros h.
    apply emits_bind; [apply emits_call; exact I |]. intros m.
    unfold _normalize_latent_channels.
    repeat apply emits_if; try apply emits_ret; try apply emits_raise.
    apply emits_bind; [apply emits_call; exact I |]. intros n. apply emits_lift.
Qed.

(** X19.  When the temporally tiled branch of [encode] is taken and [encode]
    returns normally, the time windows it has handed to the spatial
    controller or the transform adapter leave no gap: every frame [t] of the
    volume lies inside one of them, at the origin [i] say, and the frame of
    that window at [t - i] is the frame of the volume at [t]. *)
Theorem temporal_windows_cover_the_volume (self : vae) (z : tensor elem)
    (return_dict : bool) (tr : list (event elem)) :
  let window i := tslice Ax2 (Some i) (Some (i + z_sample_size self * 8 + 1)) z in
  let run := encode ops net self z return_dict tr in
  z_tiling_engaged self z = true ->
  (exists out, fst run = inr out) ->
  exists windows,
    encode_entries (snd run) = encode_entries tr ++ windows
    /\ forall t, 0 <= t < dim Ax2 z ->
         exists i,
           In (window i) windows
           /\ i <= t < i + dim Ax2 (window i)
           /\ forall p, data (window i) p = data z (set Ax2 (get Ax2 p + i) p).
Proof.
  intros window run Heng [out Hout].
  destruct (z_tiling_engaged_bounds self z Heng) as [Hzs HT].
  set (stride := z_sample_size self * 8 * 3 / 4).
  assert (Hstride : stride = 6 * z_sample_size self).
  { unfold stride.
    replace (z_sample_size self * 8 * 3) with (6 * z_sample_size self * 4) by lia.
    apply Z.div_mul. lia. }
  exists (map window (origins (dim Ax2 z) stride)). split.
  - unfold run in *. clear run. unfold encode in *. rewrite Heng in *.
    unfold encode_z_tiled in *.
    destruct (temporal_encode_geometry (z_sample_size self) ltac:(lia)) as [G1 G2].
    rewrite G1, G2 in *. fold stride in Hout |- *.
    rewrite (py_range_origins_pos _ stride ltac:(lia)) in *.
    unfold bind at 1 in Hout. unfold bind at 1.
    unfold bind at 1 in Hout. unfold bind at 1.
    unfold lift at 1 in Hout. unfold lift at 1.
    unfold bind at 1 in Hout. unfold bind at 1.
    destruct (mapM (encode_segment ops net self z (z_sample_size self * 8) return_dict)
                (origins (dim Ax2 z) stride) tr) as [[e | row] tr1] eqn:Em;
      [discriminate |].
    assert (Htr1 : encode_entries tr1
                   = encode_entries tr
                     ++ flat_map (fun i => [window i]) (origins (dim Ax2 z) stride)).
    { refine (mapM_projection encode_entries (fun i => [window i])
                (encode_segment ops net self z (z_sample_size self * 8) return_dict)
                _ _ _ _ _ Em).
      intros i tr0 y tr0' Hseg.
      change ((let* tile := encode_window ops net self return_dict (window i) in
               ret (drop_leading_frame i tile)) tr0 = (inr y, tr0')) in Hseg.
      unfold bind in Hseg.
      pose proof (encode_window_entries self return_dict (window i) tr0) as Hw.
      destruct (encode_window ops net self return_dict (window i) tr0)
        as [[e | t'] tr0''] eqn:Ew; [discriminate |].
      cbn [snd] in Hw. unfold ret in Hseg. inversion Hseg; subst. exact Hw. }
    replace (map window (origins (dim Ax2 z) stride))
      with (flat_map (fun i => [window i]) (origins (dim Ax2 z) stride))
      by (clear; induction (origins (dim Ax2 z) stride) as [| i l IH];
          [reflexivity | cbn; f_equal; exact IH]).
    rewrite <- Htr1. clear Htr1 Em.
    unfold bind, lift, ret in Hout |- *.
    destruct (blend_segments ops _ _ row) as [e | moments]; [discriminate |].
    destruct (diagonal_gaussian net moments) as [e | []]; [discriminate |].
    destruct (negb return_dict); reflexivity.
  - intros t Ht.
    destruct (origins_cover (dim Ax2 z) stride (z_sample_size self * 8 + 1) t
                ltac:(lia) Ht) as (i & Hi & Hb).
    pose proof (origins_bounds (dim Ax2 z) stride i ltac:(lia) ltac:(lia) Hi) as Hib.
    exists i. split; [apply in_map; exact Hi |]. split.
    + unfold window.
      replace (i + z_sample_size self * 8 + 1)
        with (i + (z_sample_size self * 8 + 1)) by lia.
      rewrite dim_tslice_range by lia. lia.
    + intros p. unfold window. apply data_tslice. lia.
Qed.

End Coverage.

Lemma hw_tiles_cover_the_volume_witness :
  exact_hw_geometry vae_hw0
  /\ 0 < py_int (inject_Z (tile_sample_min_size vae_hw0) * (1 - tile_overlap_factor vae_hw0))
  /\ (exists moments,
        fst (_hw_tiled_encode q_ops id_codec vae_hw0 hw_volume true []) = inr moments)
  /\ exists tiles,
       encoder_inputs (snd (_hw_tiled_encode q_ops id_codec vae_hw0 hw_volume true []))
       = encoder_inputs [] ++ tiles
       /\ exists i j, In (hw_tile 64 i j hw_volume) tiles /\ i <= 99 /\ j <= 69.
Proof.
  assert (H1 : 0 < py_int (inject_Z (tile_sample_min_size vae_hw0)
                           * (1 - tile_overlap_factor vae_hw0)))
    by (vm_compute; reflexivity).
  assert (H2 : exists moments,
             fst (_hw_tiled_encode q_ops id_codec vae_hw0 hw_volume true [])
             = inr moments)
    by (eexists; vm_compute; reflexivity).
  split; [exact vae_hw0_exact |]. split; [exact H1 |]. split; [exact H2 |].
  destruct (hw_tiles_cover_the_volume q_ops id_codec vae_hw0 hw_volume true []
              vae_hw0_exact H1 H2) as (tiles & Ht & Hcov).
  exists tiles. split; [exact Ht |].
  destruct (Hcov 99 69) as (i & j & Hin & Hi & Hj & _);
    [vm_compute; split; congruence | vm_compute; split; congruence |].
  exists i, j. split; [exact Hin |]. split; lia.
Defined.

Lemma temporal_windows_cover_the_volume_witness :
  z_tiling_engaged vae_z4 sixty_frames = true
  /\ (exists out, fst (encode q_ops id_codec vae_z4 sixty_frames true []) = inr out)
  /\ exists windows,
       encode_entries (snd (encode q_ops id_codec vae_z4 sixty_frames true []))
       = encode_entries [] ++ windows.
Proof.
  assert (H1 : z_tiling_engaged vae_z4 sixty_frames = true) by reflexivity.
  assert (H2 : exists out,
             fst (encode q_ops id_codec vae_z4 sixty_frames true []) = inr out)
    by (eexists; vm_compute; reflexivity).
  split; [exact H1 |]. split; [exact H2 |].
  destruct (temporal_windows_cover_the_volume q_ops id_codec vae_z4 sixty_frames
              true [] H1 H2) as (windows & Hw & _).
  exists windows. exact Hw.
Defined.
